(** * Aurora chatbot: retrieval and context assembly

    A shallow embedding of [app.py]: the message cache, the paginated
    fetch loop, the extraction of user names from a question, the message
    filter, the context builder and the part of the orchestrator that
    selects the working set.

    Conventions of the model.
    - A Python [str] is a Rocq [string], one [ascii] per character, the
      [ascii] being the code of the character (below 256).  [str.lower]
      maps the letters A-Z and the capital letters of codes 192 to 214 and
      216 to 222 to the letter 32 codes above and leaves every other
      character as it is; the order on strings is the lexicographic order
      on character codes, as Python's.
    - A Python [int] is a [Z]; list lengths and the [skip]/[limit] cursor,
      which are never negative, are [nat].
    - A [datetime] is the number of microseconds since some epoch, a [Z].
    - A message is the dict the source reads with the keys [user_name],
      [message] and [timestamp]; it is a record here. *)

From Stdlib Require Import Bool Arith ZArith Lia List Ascii String.
From Stdlib Require Import Permutation Sorted.
Import ListNotations.

Set Warnings "-register-all".

Open Scope string_scope.
Open Scope list_scope.

(** ** Strings *)

(** [c.lower()] for one character. *)
Definition lower_char (c : ascii) : ascii :=
  let n := nat_of_ascii c in
  if ((65 <=? n) && (n <=? 90)
      || (192 <=? n) && (n <=? 214)
      || (216 <=? n) && (n <=? 222))%nat
  then ascii_of_nat (n + 32)
  else c.

(** [s.lower()]. *)
Fixpoint lower (s : string) : string :=
  match s with
  | EmptyString => EmptyString
  | String c rest => String (lower_char c) (lower rest)
  end.

(** [needle in hay] on two strings: [needle] starts at some position of
    [hay]. *)
Fixpoint contains (needle hay : string) : bool :=
  if prefix needle hay then true
  else match hay with
       | EmptyString => false
       | String _ rest => contains needle rest
       end.

(** What "is a substring of" means, independently of the test above. *)
Definition Substring (needle hay : string) : Prop :=
  exists pre post : string, hay = (pre ++ needle ++ post)%string.

(** ** Messages *)

Record Message : Type := mkMessage {
  id : string;
  user_id : string;
  user_name : string;
  message : string;
  timestamp : string
}.

Definition Message_eq_dec (a b : Message) : {a = b} + {a <> b}.
Proof. decide equality; apply string_dec. Defined.

(** ** Entity extractor: [extract_user_names] *)

Definition known_users : list string :=
  ["Layla"; "Vikram"; "Amira"; "Sophia"; "Fatima";
   "Armand"; "Hans"; "Lorenzo"; "Lily"; "Thiago"; "Amina"].

(** The [for name in known_users] loop, with [found_names] as its state. *)
Fixpoint extract_loop (names : list string) (question_lower : string)
    (found_names : list string) : list string :=
  match names with
  | [] => found_names
  | name :: rest =>
      extract_loop rest question_lower
        (if contains (lower name) question_lower
         then found_names ++ [name]
         else found_names)
  end.

(** The body of [extract_user_names] over an arbitrary name list. *)
Definition extract_from (known : list string) (question : string) : list string :=
  extract_loop known (lower question) [].

Definition extract_user_names (question : string) : list string :=
  extract_from known_users question.

(** ** Message filter: [filter_messages_by_user] *)

(** The inner [for query_name in user_names] loop for one message: at the
    first name that matches, the message is appended and the loop is left. *)
Fixpoint match_names (msg : Message) (user_names : list string)
    (filtered : list Message) : list Message :=
  match user_names with
  | [] => filtered
  | query_name :: rest =>
      if contains (lower query_name) (lower (user_name msg))
      then filtered ++ [msg]
      else match_names msg rest filtered
  end.

(** The outer [for msg in messages] loop. *)
Fixpoint filter_loop (messages : list Message) (user_names : list string)
    (filtered : list Message) : list Message :=
  match messages with
  | [] => filtered
  | msg :: rest => filter_loop rest user_names (match_names msg user_names filtered)
  end.

Definition filter_messages_by_user (messages : list Message)
    (user_names : list string) : list Message :=
  match user_names with
  | [] => messages
  | _ :: _ => filter_loop messages user_names []
  end.

(** Some queried name, lowercased, occurs in the lowercased user name. *)
Definition name_matches (user_names : list string) (msg : Message) : bool :=
  existsb (fun query_name => contains (lower query_name) (lower (user_name msg)))
          user_names.

(** ** Message cache: [MessageCache] *)

Module MessageCache.
Section Cache.
Variable A : Type.

Record t : Type := mk {
  messages : option (list A);
  last_updated : option Z;
  cache_duration_seconds : Z
}.

(** [__init__]. *)
Definition init : t := mk None None 300.

(** [is_valid], read at clock value [now].  The age is
    [(now - last_updated).total_seconds()]: the exact number of
    microseconds divided by [10^6] and rounded to a double.  Rounding is
    monotone and every integer below [2^53] is a double, so for an
    integer duration [d] the comparison [age < d] holds exactly when the
    microsecond count is below [d * 10^6]. *)
Definition is_valid (now : Z) (self : t) : bool :=
  match messages self, last_updated self with
  | Some _, Some updated =>
      (now - updated <? cache_duration_seconds self * 1000000)%Z
  | _, _ => false
  end.

(** [set], executed at clock value [now]. *)
Definition set (now : Z) (msgs : list A) (self : t) : t :=
  mk (Some msgs) (Some now) (cache_duration_seconds self).

(** [get], executed at clock value [now]. *)
Definition get (now : Z) (self : t) : option (list A) :=
  if is_valid now self then messages self else None.
End Cache.
Arguments mk {A}.
Arguments messages {A}.
Arguments last_updated {A}.
Arguments cache_duration_seconds {A}.
Arguments init {A}.
Arguments is_valid {A}.
Arguments set {A}.
Arguments get {A}.
End MessageCache.

(** The validity window in microseconds. *)
Definition TTL_us : Z := 300 * 1000000.

(** ** Message source client: [fetch_all_messages] *)

(** A decoded JSON value, as [response.json()] returns it.  Numbers are the
    integers; a dict is its list of items in insertion order. *)
Inductive json : Type :=
  | JNull
  | JBool (b : bool)
  | JNum (n : Z)
  | JStr (s : string)
  | JList (l : list json)
  | JDict (kv : list (string * json)).

(** What one page request produces: [client.get] or [raise_for_status]
    raises an [httpx.HTTPError] whose text is [text], or the status is a
    success and the body decodes to a JSON value or does not decode. *)
Inductive response : Type :=
  | HTTPError (text : string)
  | Body (decoded : option json).

(** The exceptions that leave [fetch_all_messages]. *)
Inductive exn : Type :=
  | HTTPException (status_code : Z) (detail : string)
  | JSONDecodeError
  | AttributeError
  | TypeError.

Inductive outcome (A : Type) : Type :=
  | Returned (a : A)
  | Raised (e : exn).
Arguments Returned {A}.
Arguments Raised {A}.

(** The server: the response to the [n]-th request, made with the query
    parameters [skip] and [limit]. *)
Definition server : Type := nat -> nat -> nat -> response.

Fixpoint assoc (key : string) (kv : list (string * json)) : option json :=
  match kv with
  | [] => None
  | (k, v) :: rest => if (k =? key)%string then Some v else assoc key rest
  end.

(** [data.get(key, default)]; [None] is the [AttributeError] of a value that
    is not a dict. *)
Definition dict_get (data : json) (key : string) (default : json) : option json :=
  match data with
  | JDict kv => Some (match assoc key kv with Some v => v | None => default end)
  | _ => None
  end.

(** Truth value of a JSON value, for [not items]. *)
Definition truthy (v : json) : bool :=
  match v with
  | JNull => false
  | JBool b => b
  | JNum n => negb (n =? 0)%Z
  | JStr s => negb (s =? "")%string
  | JList l => match l with [] => false | _ :: _ => true end
  | JDict kv => match kv with [] => false | _ :: _ => true end
  end.

(** The elements [messages.extend(items)] appends: the elements of a list,
    the characters of a string, the keys of a dict; [None] is the
    [TypeError] of a value that is not iterable. *)
Definition iterate (v : json) : option (list json) :=
  match v with
  | JList l => Some l
  | JStr s => Some (map (fun c => JStr (String c EmptyString)) (list_ascii_of_string s))
  | JDict kv => Some (map (fun p => JStr (fst p)) kv)
  | JNull | JBool _ | JNum _ => None
  end.

(** [len(messages) >= total]; [None] is the [TypeError] of comparing an
    [int] with a value that is not a number. *)
Definition len_ge (n : nat) (total : json) : option bool :=
  match total with
  | JNum t => Some (Z.of_nat n >=? t)%Z
  | JBool b => Some (Z.of_nat n >=? (if b then 1 else 0))%Z
  | JNull | JStr _ | JList _ | JDict _ => None
  end.

Definition fetch_error (text : string) : exn :=
  HTTPException 500 ("Failed to fetch messages from API: " ++ text)%string.

(** The [while True] loop, run for at most [fuel] page requests; [request]
    counts the requests made so far.  [None]: the loop is still running
    after [fuel] requests. *)
Fixpoint fetch_loop (fuel : nat) (srv : server) (limit request skip : nat)
    (messages : list json) : option (outcome (list json)) :=
  match fuel with
  | O => None
  | S fuel' =>
      match srv request skip limit with
      | HTTPError text => Some (Raised (fetch_error text))
      | Body None => Some (Raised JSONDecodeError)
      | Body (Some data) =>
          match dict_get data "items" (JList []) with
          | None => Some (Raised AttributeError)
          | Some items =>
              if negb (truthy items) then Some (Returned messages)
              else
                match iterate items with
                | None => Some (Raised TypeError)
                | Some new_items =>
                    let messages := messages ++ new_items in
                    match dict_get data "total" (JNum 0) with
                    | None => Some (Raised AttributeError)
                    | Some total =>
                        match len_ge (List.length messages) total with
                        | None => Some (Raised TypeError)
                        | Some true => Some (Returned messages)
                        | Some false =>
                            fetch_loop fuel' srv limit (S request) (skip + limit) messages
                        end
                    end
                end
          end
      end
  end.

(** [fetch_all_messages]: the cache is read at clock value [now_get] and,
    after a complete fetch, written at [now_set]. *)
Definition fetch_all_messages (fuel : nat) (now_get now_set : Z) (srv : server)
    (message_cache : MessageCache.t json)
    : option (outcome (list json) * MessageCache.t json) :=
  match MessageCache.get now_get message_cache with
  | Some cached_messages => Some (Returned cached_messages, message_cache)
  | None =>
      match fetch_loop fuel srv 1000 0 0 [] with
      | None => None
      | Some (Returned messages) =>
          Some (Returned messages, MessageCache.set now_set messages message_cache)
      | Some (Raised e) => Some (Raised e, message_cache)
      end
  end.

(** The fetch loop terminates against [srv]. *)
Definition terminates (srv : server) (limit : nat) : Prop :=
  exists fuel, fetch_loop fuel srv limit 0 0 [] <> None.

(** A page body of the shape the source expects. *)
Definition page (items : list json) (total : Z) : response :=
  Body (Some (JDict [("items", JList items); ("total", JNum total)])).

(** A server that holds [corpus] and reports its true size. *)
Definition truthful_server (corpus : list json) : server :=
  fun _ skip limit =>
    page (firstn limit (skipn skip corpus)) (Z.of_nat (List.length corpus)).

(** A server of one-item pages whose reported total is always one more than
    what the client has already received. *)
Definition growing_server : server :=
  fun request _ _ => page [JNull] (Z.of_nat request + 2).

(** A server whose totals fluctuate between 3 and 4 while it sends
    one-item pages. *)
Definition fickle_server : server :=
  fun request _ _ => page [JNum (Z.of_nat request)] (if Nat.even request then 4 else 3).

(** The numeric total a response carries, when it carries one. *)
Definition reported_total (r : response) : option Z :=
  match r with
  | Body (Some (JDict kv)) =>
      match assoc "total" kv with
      | Some (JNum t) => Some t
      | Some (JBool b) => Some (if b then 1 else 0)%Z
      | Some _ => None
      | None => Some 0%Z
      end
  | _ => None
  end.

(** The shape [{ items: Message[], total: integer }] of the interface
    description: a dict with a list under [items] and an integer under
    [total]. *)
Definition expected_shape (r : response) : Prop :=
  exists kv items total,
    r = Body (Some (JDict kv)) /\
    assoc "items" kv = Some (JList items) /\
    assoc "total" kv = Some (JNum total).

(** ** Context builder: [create_context_from_messages] *)

Definition newline : string := String (ascii_of_nat 10) EmptyString.

(** The line of one message: [f"[{timestamp[:10]}] {message_text}"]. *)
Definition render (msg : Message) : string :=
  ("[" ++ substring 0 10 (timestamp msg) ++ "] " ++ message msg)%string.

(** [user_messages]: the dict from user name to rendered lines, as its
    items in insertion order. *)
Definition user_dict : Type := list (string * list string).

(** One step of the grouping loop: the key is created with an empty list
    when it is absent, then the line is appended to its list. *)
Fixpoint dict_append (name line : string) (user_messages : user_dict) : user_dict :=
  match user_messages with
  | [] => [(name, [line])]
  | (k, lines) :: rest =>
      if (k =? name)%string then (k, lines ++ [line]) :: rest
      else (k, lines) :: dict_append name line rest
  end.

(** The [for msg in messages] grouping loop. *)
Fixpoint group_loop (messages : list Message) (user_messages : user_dict) : user_dict :=
  match messages with
  | [] => user_messages
  | msg :: rest => group_loop rest (dict_append (user_name msg) (render msg) user_messages)
  end.

(** [sorted(user_messages.items())]: the keys of a dict are distinct, so the
    order of the pairs is the order of their keys. *)
Fixpoint insert_item (x : string * list string) (l : user_dict) : user_dict :=
  match l with
  | [] => [x]
  | y :: rest => if String.leb (fst x) (fst y) then x :: l else y :: insert_item x rest
  end.

Definition sorted_items (user_messages : user_dict) : user_dict :=
  fold_right insert_item [] user_messages.

(** An entry of [context_parts]: the header of a user or the line of a
    message. *)
Inductive part : Type :=
  | Header (name : string)
  | Line (text : string).

(** The string appended to [context_parts]. *)
Definition part_text (p : part) : string :=
  match p with
  | Header name => (newline ++ "=== " ++ name ++ " ===")%string
  | Line text => text
  end.

(** The state of the building loops. *)
Record builder : Type := mkBuilder {
  context_parts : list part;
  total_messages : Z
}.

(** The inner [for msg in msgs_to_include] loop, left once the running total
    has reached [max_messages]. *)
Fixpoint emit_lines (msgs_to_include : list string) (max_messages : Z)
    (st : builder) : builder :=
  match msgs_to_include with
  | [] => st
  | msg :: rest =>
      let st' := mkBuilder (context_parts st ++ [Line msg]) (total_messages st + 1) in
      if (total_messages st' >=? max_messages)%Z then st'
      else emit_lines rest max_messages st'
  end.

(** [msgs if len(messages) < 200 else msgs[:50]]. *)
Definition msgs_to_include (n_messages : nat) (msgs : list string) : list string :=
  if (n_messages <? 200)%nat then msgs else firstn 50 msgs.

(** The outer loop over the sorted groups; [n_messages] is [len(messages)]. *)
Fixpoint emit_groups (groups : user_dict) (n_messages : nat) (max_messages : Z)
    (st : builder) : builder :=
  match groups with
  | [] => st
  | (name, msgs) :: rest =>
      let st1 := mkBuilder (context_parts st ++ [Header name]) (total_messages st) in
      let st2 := emit_lines (msgs_to_include n_messages msgs) max_messages st1 in
      if (total_messages st2 >=? max_messages)%Z then st2
      else emit_groups rest n_messages max_messages st2
  end.

(** [context_parts] at the end of [create_context_from_messages]. *)
Definition create_context_parts (messages : list Message) (max_messages : Z) : list part :=
  context_parts
    (emit_groups (sorted_items (group_loop messages [])) (List.length messages)
       max_messages (mkBuilder [] 0)).

Definition create_context_from_messages (messages : list Message)
    (max_messages : Z) : string :=
  concat newline (map part_text (create_context_parts messages max_messages)).

(** The number of message lines among the parts. *)
Fixpoint count_lines (parts : list part) : Z :=
  match parts with
  | [] => 0
  | Header _ :: rest => count_lines rest
  | Line _ :: rest => 1 + count_lines rest
  end.

(** *** The algorithm as the design document words it *)

(** Step 1, the keys: the distinct user names in first-seen order. *)
Fixpoint first_seen (names : list string) : list string :=
  match names with
  | [] => []
  | n :: rest => n :: filter (fun m => negb (m =? n)%string) (first_seen rest)
  end.

(** Step 1, one group: the messages of [name] in input order. *)
Definition messages_of (name : string) (messages : list Message) : list Message :=
  filter (fun msg => (user_name msg =? name)%string) messages.

(** Step 2: the names in ascending order. *)
Fixpoint insert_name (x : string) (l : list string) : list string :=
  match l with
  | [] => [x]
  | y :: rest => if String.leb x y then x :: l else y :: insert_name x rest
  end.

Definition sort_names (names : list string) : list string :=
  fold_right insert_name [] names.

(** The order in which step 2 puts two neighbouring names. *)
Definition ascending (a b : string) : Prop := String.leb a b = true.

(** Step 3: the cap of a group, decided by the size of the whole input. *)
Definition spec_cap (corpus_size : nat) (group : list Message) : list Message :=
  if (corpus_size <? 200)%nat then group else firstn 50 group.

(** Step 4: the section of one user, its header and then its lines. *)
Definition spec_section (messages : list Message) (name : string) : list part :=
  Header name
  :: map (fun msg => Line (render msg))
         (spec_cap (List.length messages) (messages_of name messages)).

(** Steps 1 to 4: the sections of all users, in ascending order of name. *)
Definition spec_sections (messages : list Message) : list part :=
  flat_map (spec_section messages)
           (sort_names (first_seen (map user_name messages))).

(** Step 5: parts are emitted in order while a running total of message
    lines is kept; the line with which the total reaches [max_lines] is the
    last part emitted. *)
Fixpoint spec_stop_at (max_lines total : Z) (parts : list part) : list part :=
  match parts with
  | [] => []
  | Header name :: rest => Header name :: spec_stop_at max_lines total rest
  | Line text :: rest =>
      if (total + 1 >=? max_lines)%Z then [Line text]
      else Line text :: spec_stop_at max_lines (total + 1) rest
  end.

(** ** Answer orchestrator: [answer_question_with_llm] up to the prompt *)

(** What the orchestrator prints. *)
Inductive log_event : Type :=
  | FilteredTo (n : nat) (user_names : list string)
  | NoMessagesFound (user_names : list string).

(** The working set and the printed line, if any. *)
Definition select_messages (question : string) (messages : list Message)
    : list Message * option log_event :=
  let user_names := extract_user_names question in
  match user_names with
  | [] => (messages, None)
  | _ :: _ =>
      let filtered_messages := filter_messages_by_user messages user_names in
      match filtered_messages with
      | _ :: _ =>
          (filtered_messages, Some (FilteredTo (List.length filtered_messages) user_names))
      | [] => (messages, Some (NoMessagesFound user_names))
      end
  end.

Definition user_prompt (question context : string) : string :=
  ("Question: " ++ question ++ newline ++ newline
   ++ "Member Messages:" ++ newline ++ context ++ newline ++ newline
   ++ "Provide a helpful answer based on the messages above.")%string.

(** The user prompt the orchestrator sends, with what it printed; the
    completion call that follows is outside the model. *)
Definition prepare_prompt (question : string) (messages : list Message)
    : string * option log_event :=
  let (working_set, printed) := select_messages question messages in
  (user_prompt question (create_context_from_messages working_set 500), printed).

(** ** Further servers and readings of the fetch loop *)

(** What one response adds to [messages]: the elements of a truthy,
    iterable [items], and nothing otherwise. *)
Definition page_items (r : response) : list json :=
  match r with
  | Body (Some data) =>
      match dict_get data "items" (JList []) with
      | Some items =>
          if truthy items
          then match iterate items with Some new_items => new_items | None => [] end
          else []
      | None => []
      end
  | _ => []
  end.

(** [srv], except that the request number [k] meets an [httpx] error. *)
Definition failing_at (k : nat) (text : string) (srv : server) : server :=
  fun request skip limit =>
    if (request =? k)%nat then HTTPError text else srv request skip limit.

(** A server that serves the slices of [corpus] and reports [total],
    whatever the size of the corpus is. *)
Definition slicing_server (corpus : list json) (total : nat) : server :=
  fun _ skip limit => page (firstn limit (skipn skip corpus)) (Z.of_nat total).

(** The number of pages of size [limit] that hold [total] items. *)
Definition pages_for (total limit : nat) : nat := (total + limit - 1) / limit.

(** ** Statistics: [get_stats] after the fetch *)

Module Stats.

(** [users]: the dict from user name to count, as its items in insertion
    order. *)
Definition counts : Type := list (string * nat).

(** One step of the counting loop: the key is created with 0 when it is
    absent, then its count is incremented. *)
Fixpoint count_user (name : string) (users : counts) : counts :=
  match users with
  | [] => [(name, 0 + 1)]
  | (k, n) :: rest =>
      if (k =? name)%string then (k, n + 1) :: rest
      else (k, n) :: count_user name rest
  end.

(** The [for msg in messages] loop of [get_stats]. *)
Fixpoint count_loop (messages : list Message) (users : counts) : counts :=
  match messages with
  | [] => users
  | msg :: rest => count_loop rest (count_user (user_name msg) users)
  end.

(** The dict that [get_stats] returns. *)
Record t : Type := mk {
  total_messages : nat;
  unique_users : nat;
  users : counts
}.

Definition get_stats (messages : list Message) : t :=
  let users := count_loop messages [] in
  mk (List.length messages) (List.length users) users.

End Stats.

(** ** Reading the parts of a context *)

(** The texts of the message lines, in order. *)
Fixpoint line_texts (parts : list part) : list string :=
  match parts with
  | [] => []
  | Header _ :: rest => line_texts rest
  | Line text :: rest => text :: line_texts rest
  end.

(** The names in the headers, in order. *)
Fixpoint header_names (parts : list part) : list string :=
  match parts with
  | [] => []
  | Header name :: rest => name :: header_names rest
  | Line _ :: rest => header_names rest
  end.

(** Every header is immediately followed by a message line. *)
Fixpoint headers_have_lines (parts : list part) : bool :=
  match parts with
  | [] => true
  | Header _ :: rest =>
      match rest with
      | Line _ :: _ => headers_have_lines rest
      | _ => false
      end
  | Line _ :: rest => headers_have_lines rest
  end.

(** ** The completion call of [answer_question_with_llm] *)












(** [l1] is an initial segment of [l2]. *)
Definition Prefix {A : Type} (l1 l2 : list A) : Prop :=
  exists rest, l2 = l1 ++ rest.

(** ** Strings by character codes *)

(** The string of the characters with the given codes. *)
Definition string_of_codes (codes : list nat) : string :=
  string_of_list_ascii (map ascii_of_nat codes).

(** ** Reading the lines of one user *)

(** The message lines that stand under the header of [name]: [current] is
    the name of the header the reading is under, if any. *)
Fixpoint lines_of_user (name : string) (current : option string)
    (parts : list part) : list string :=
  match parts with
  | [] => []
  | Header n :: rest => lines_of_user name (Some n) rest
  | Line text :: rest =>
      match current with
      | Some n =>
          if (n =? name)%string then text :: lines_of_user name current rest
          else lines_of_user name current rest
      | None => lines_of_user name current rest
      end
  end.

(** ** Relations used in the statements *)

(** [l1] is obtained from [l2] by deleting elements. *)
Inductive Subsequence {A : Type} : list A -> list A -> Prop :=
  | Subsequence_nil : Subsequence [] []
  | Subsequence_skip x l1 l2 : Subsequence l1 l2 -> Subsequence l1 (x :: l2)
  | Subsequence_keep x l1 l2 : Subsequence l1 l2 -> Subsequence (x :: l1) (x :: l2).

(** * Properties *)

(** ** Substring test *)

Lemma prefix_iff_append (a b : string) :
  prefix a b = true <-> exists post, b = (a ++ post)%string.
Proof.
  revert b; induction a as [|c a IH]; intros b; simpl.
  - destruct b; split; intros; eauto.
  - destruct b as [|d b]; simpl.
    + split; [discriminate | intros [post H]; discriminate].
    + destruct (ascii_dec c d) as [->|Hne].
      * rewrite IH. split; intros [post H]; exists post.
        -- now subst.
        -- now injection H.
      * split; [discriminate | intros [post H]; injection H; intros; congruence].
Qed.

Lemma contains_iff_Substring (needle hay : string) :
  contains needle hay = true <-> Substring needle hay.
Proof.
  unfold Substring. induction hay as [|c hay IH]; cbn [contains].
  - destruct (prefix needle "") eqn:Hp.
    + split; [intros _ | reflexivity].
      apply prefix_iff_append in Hp. destruct Hp as [post Hp].
      now exists "", post.
    + split; [discriminate|]. intros (pre & post & H).
      destruct pre; simpl in H.
      * assert (prefix needle "" = true) by (apply prefix_iff_append; eauto).
        congruence.
      * discriminate.
  - destruct (prefix needle (String c hay)) eqn:Hp.
    + split; [intros _ | reflexivity].
      apply prefix_iff_append in Hp. destruct Hp as [post Hp].
      now exists "", post.
    + rewrite IH. split.
      * intros (pre & post & ->). now exists (String c pre), post.
      * intros (pre & post & H). destruct pre as [|d pre]; simpl in H.
        -- assert (prefix needle (String c hay) = true)
             by (apply prefix_iff_append; eauto).
           congruence.
        -- injection H as _ H. eauto.
Qed.

(** ** Message filter *)

Lemma match_names_spec (msg : Message) (user_names : list string)
    (filtered : list Message) :
  match_names msg user_names filtered =
  if name_matches user_names msg then filtered ++ [msg] else filtered.
Proof.
  induction user_names as [|q qs IH]; simpl; [reflexivity|].
  destruct (contains (lower q) (lower (user_name msg))); simpl; auto.
Qed.

Lemma filter_loop_spec (messages : list Message) (user_names : list string) :
  forall filtered,
    filter_loop messages user_names filtered =
    filtered ++ filter (name_matches user_names) messages.
Proof.
  induction messages as [|msg rest IH]; intros filtered; simpl.
  - now rewrite app_nil_r.
  - rewrite IH, match_names_spec.
    destruct (name_matches user_names msg); simpl; [|reflexivity].
    now rewrite <- app_assoc.
Qed.

Lemma name_matches_iff (user_names : list string) (msg : Message) :
  name_matches user_names msg = true <->
  exists query_name,
    In query_name user_names /\
    Substring (lower query_name) (lower (user_name msg)).
Proof.
  unfold name_matches. rewrite existsb_exists.
  split; intros (q & Hin & H); exists q; split; auto;
    now apply contains_iff_Substring.
Qed.

Lemma filter_Subsequence {A : Type} (f : A -> bool) (l : list A) :
  Subsequence (filter f l) l.
Proof.
  induction l as [|x l IH]; simpl; [constructor|].
  destruct (f x); now constructor.
Qed.

Lemma Subsequence_refl {A : Type} (l : list A) : Subsequence l l.
Proof. induction l; now constructor. Qed.

Lemma count_occ_filter (f : Message -> bool) (l : list Message) (msg : Message) :
  count_occ Message_eq_dec (filter f l) msg =
  if f msg then count_occ Message_eq_dec l msg else 0.
Proof.
  induction l as [|x l IH]; simpl.
  - now destruct (f msg).
  - destruct (f x) eqn:Hx; simpl; destruct (Message_eq_dec x msg) as [->|Hne];
      rewrite IH; try reflexivity.
    + now rewrite Hx.
    + now rewrite Hx.
Qed.

(** C3. With no queried name the filter returns its input as it is.
    Otherwise its result is the input with exactly the messages kept for
    which some queried name, lowercased, is a substring of the lowercased
    user name, in the order of the input.  Lowercasing is the one of
    Python on the characters below 256: the 26 letters and the capitals of
    codes 192 to 214 and 216 to 222 go to their small letters, every other
    character stays.  On a corpus of Layla Hassan and Vikram Desai the name
    Layla keeps the messages of Layla Hassan, in order, whatever the case
    of the name and of the stored user name. *)
Theorem C3_filter_keeps_matching_users_in_order :
  forall (messages : list Message) (user_names : list string),
    filter_messages_by_user messages [] = messages /\
    filter_messages_by_user messages user_names =
      match user_names with
      | [] => messages
      | _ :: _ => filter (name_matches user_names) messages
      end /\
    (forall msg,
        name_matches user_names msg = true <->
        exists query_name,
          In query_name user_names /\
          Substring (lower query_name) (lower (user_name msg))) /\
    Subsequence (filter_messages_by_user messages user_names) messages /\
    lower "ABCDEFGHIJKLMNOPQRSTUVWXYZ" = "abcdefghijklmnopqrstuvwxyz" /\
    lower (string_of_codes (seq 192 23 ++ seq 216 7)) =
      string_of_codes (seq 224 23 ++ seq 248 7) /\
    lower (string_of_codes (seq 0 65 ++ seq 91 101 ++ [215] ++ seq 223 33)) =
      string_of_codes (seq 0 65 ++ seq 91 101 ++ [215] ++ seq 223 33) /\
    (let first := mkMessage "1" "u1" "Layla Hassan" "Book a table" "2025-01-02T09:30:00Z" in
     let other := mkMessage "2" "u2" "Vikram Desai" "Rent a car" "2025-01-03T10:00:00Z" in
     let second := mkMessage "3" "u1" "LAYLA HASSAN" "Cancel it" "2025-01-04T08:00:00Z" in
     filter_messages_by_user [first; other; second] ["Layla"] = [first; second] /\
     filter_messages_by_user [first; other; second] ["lAyLa"] = [first; second] /\
     filter_messages_by_user [first; other; second] ["Desai"; "nobody"] = [other] /\
     filter_messages_by_user [first; other; second] ["Hans"] = []) /\
    (let elodie := mkMessage "4" "u4" (string_of_codes [201; 108; 111; 100; 105; 101])
                             "Bonjour" "2025-01-05T08:00:00Z" in
     filter_messages_by_user [elodie] [string_of_codes [233; 108; 111; 100; 105; 101]]
       = [elodie]).
Proof.
  intros messages user_names.
  assert (E : filter_messages_by_user messages user_names =
              match user_names with
              | [] => messages
              | _ :: _ => filter (name_matches user_names) messages
              end).
  { destruct user_names; [reflexivity|].
    unfold filter_messages_by_user. now rewrite filter_loop_spec. }
  split; [reflexivity|].
  split; [exact E|].
  split; [intros msg; apply name_matches_iff|].
  split.
  { rewrite E. destruct user_names.
    - apply Subsequence_refl.
    - apply filter_Subsequence. }
  split; [reflexivity|].
  split; [vm_compute; reflexivity|].
  split; [vm_compute; reflexivity|].
  split; [cbn zeta; repeat split; reflexivity|].
  vm_compute. reflexivity.
Qed.

(** C10. For a non-empty list of queried names the result is a
    subsequence of the input, a message occurs in it as often as in the
    input when it matches and not at all otherwise, and the inner loop
    appends a message at most once however many names match it. *)
Theorem C10_filter_never_duplicates :
  forall (messages : list Message) (user_names : list string),
    user_names <> [] ->
    Subsequence (filter_messages_by_user messages user_names) messages /\
    (forall msg,
        count_occ Message_eq_dec (filter_messages_by_user messages user_names) msg =
        if name_matches user_names msg
        then count_occ Message_eq_dec messages msg
        else 0) /\
    (forall msg filtered,
        match_names msg user_names filtered =
        if name_matches user_names msg then filtered ++ [msg] else filtered) /\
    List.length (filter_messages_by_user messages user_names) <= List.length messages.
Proof.
  intros messages user_names Hne.
  assert (E : filter_messages_by_user messages user_names =
              filter (name_matches user_names) messages).
  { destruct user_names; [congruence|].
    unfold filter_messages_by_user. now rewrite filter_loop_spec. }
  rewrite E. repeat split.
  - apply filter_Subsequence.
  - intros msg. apply count_occ_filter.
  - intros msg filtered. apply match_names_spec.
  - apply filter_length_le.
Qed.

(** ** Entity extractor *)

Lemma extract_loop_spec (names : list string) (question_lower : string) :
  forall found_names,
    extract_loop names question_lower found_names =
    found_names ++ filter (fun name => contains (lower name) question_lower) names.
Proof.
  induction names as [|name rest IH]; intros found_names; simpl.
  - now rewrite app_nil_r.
  - rewrite IH. destruct (contains (lower name) question_lower); [|reflexivity].
    now rewrite <- app_assoc.
Qed.

Lemma extract_from_filter (known : list string) (question : string) :
  extract_from known question =
  filter (fun name => contains (lower name) (lower question)) known.
Proof. unfold extract_from. now rewrite extract_loop_spec. Qed.

Lemma filter_Permutation {A : Type} (f : A -> bool) (l l' : list A) :
  Permutation l l' -> Permutation (filter f l) (filter f l').
Proof.
  induction 1 as [|x l l' _ IH|x y l|l l' l'' _ IH1 _ IH2]; simpl.
  - constructor.
  - destruct (f x); [now constructor | exact IH].
  - destruct (f x), (f y); try apply Permutation_refl.
    apply perm_swap.
  - now transitivity (filter f l').
Qed.

(** C9. The extractor returns the known names whose lowercased form is a
    substring of the lowercased question, all of them and no other, in the
    order of the name list; listing the known names in another order gives
    the same names; on "LAYLA and vikram" the result is Layla and Vikram. *)
Theorem C9_extractor_returns_names_contained_in_question :
  forall (question : string) (known known' : list string),
    Permutation known known' ->
    extract_user_names question =
      filter (fun name => contains (lower name) (lower question)) known_users /\
    (forall name,
        In name (extract_user_names question) <->
        In name known_users /\ Substring (lower name) (lower question)) /\
    (forall name,
        In name (extract_from known question) <->
        In name known /\ Substring (lower name) (lower question)) /\
    Permutation (extract_from known question) (extract_from known' question) /\
    (forall name,
        In name (extract_from known question) <->
        In name (extract_from known' question)) /\
    extract_user_names "LAYLA and vikram" = ["Layla"; "Vikram"].
Proof.
  intros question known known' Hperm.
  assert (Hin : forall names name,
             In name (extract_from names question) <->
             In name names /\ Substring (lower name) (lower question)).
  { intros names name. rewrite extract_from_filter, filter_In.
    now rewrite contains_iff_Substring. }
  assert (Hp : Permutation (extract_from known question)
                           (extract_from known' question)).
  { rewrite !extract_from_filter. now apply filter_Permutation. }
  split; [apply extract_from_filter|].
  split; [intros name; apply Hin|].
  split; [intros name; apply Hin|].
  split; [exact Hp|].
  split; [|reflexivity].
  intros name; split; intros H.
  - now apply (Permutation_in _ Hp).
  - now apply (Permutation_in _ (Permutation_sym Hp)).
Qed.

Lemma C9_extractor_witness :
  Permutation known_users (rev known_users) /\
  Permutation (extract_from known_users "LAYLA and vikram")
              (extract_from (rev known_users) "LAYLA and vikram") /\
  extract_from (rev known_users) "LAYLA and vikram" = ["Vikram"; "Layla"].
Proof.
  split; [apply Permutation_rev|]. split; [|reflexivity].
  exact (proj1 (proj2 (proj2 (proj2
           (C9_extractor_returns_names_contained_in_question
              "LAYLA and vikram" known_users (rev known_users)
              (Permutation_rev known_users)))))).
Defined.

Lemma C10_filter_witness :
  let layla := mkMessage "1" "u1" "Layla Hassan" "Book a table" "2025-01-02T10:00:00Z" in
  let vikram := mkMessage "2" "u2" "Vikram Desai" "Rent a car" "2025-01-03T10:00:00Z" in
  ["Layla"; "Hassan"; "lay"] <> [] /\
  filter_messages_by_user [layla; vikram; layla] ["Layla"; "Hassan"; "lay"]
    = [layla; layla] /\
  Subsequence (filter_messages_by_user [layla; vikram; layla] ["Layla"; "Hassan"; "lay"])
              [layla; vikram; layla].
Proof.
  intros layla vikram.
  split; [discriminate|]. split; [reflexivity|].
  refine (proj1 (C10_filter_never_duplicates
                   [layla; vikram; layla] ["Layla"; "Hassan"; "lay"] _)).
  discriminate.
Defined.

(** ** Message cache *)

Lemma get_after_set {A : Type} (cache : MessageCache.t A) (corpus : list A)
    (fetched_at now : Z) :
  MessageCache.get now (MessageCache.set fetched_at corpus cache) =
  if (now - fetched_at <? MessageCache.cache_duration_seconds cache * 1000000)%Z
  then Some corpus else None.
Proof. reflexivity. Qed.

(** C8. On a cache whose duration is the 300 seconds of the constructor:
    after [set] at time [fetched_at], [get] at time [now] returns the very
    corpus that was set when [now - fetched_at] is below 300 seconds, and
    nothing when it is 300 seconds or more; [get] on a fresh cache returns
    nothing; after two [set]s the cache is the one the later [set] alone
    would leave, so a valid [get] returns the later corpus. *)
Theorem C8_cache_obeys_ttl :
  forall (A : Type) (cache : MessageCache.t A) (earlier corpus : list A)
         (t0 fetched_at now : Z),
    MessageCache.cache_duration_seconds cache = 300%Z ->
    MessageCache.get now (MessageCache.set fetched_at corpus cache) =
      (if (now - fetched_at <? TTL_us)%Z then Some corpus else None) /\
    ((now - fetched_at < TTL_us)%Z <->
       MessageCache.get now (MessageCache.set fetched_at corpus cache) = Some corpus) /\
    ((now - fetched_at >= TTL_us)%Z <->
       MessageCache.get now (MessageCache.set fetched_at corpus cache) = None) /\
    MessageCache.get now (@MessageCache.init A) = None /\
    MessageCache.set fetched_at corpus (MessageCache.set t0 earlier cache) =
      MessageCache.set fetched_at corpus cache /\
    MessageCache.get now
      (MessageCache.set fetched_at corpus (MessageCache.set t0 earlier cache)) =
      (if (now - fetched_at <? TTL_us)%Z then Some corpus else None).
Proof.
  intros A cache earlier corpus t0 fetched_at now Hd.
  assert (E : forall c : MessageCache.t A,
             MessageCache.cache_duration_seconds c = 300%Z ->
             MessageCache.get now (MessageCache.set fetched_at corpus c) =
             if (now - fetched_at <? TTL_us)%Z then Some corpus else None).
  { intros c Hc. rewrite get_after_set, Hc. reflexivity. }
  split; [now apply E|].
  split; [|split; [|split; [reflexivity|split; [reflexivity|now apply E]]]];
    rewrite (E cache Hd);
    destruct (Z.ltb_spec (now - fetched_at) TTL_us) as [Hlt|Hge]; split; intros H;
    try reflexivity; try discriminate; try assumption; lia.
Qed.

Lemma C8_cache_witness :
  MessageCache.cache_duration_seconds (@MessageCache.init nat) = 300%Z /\
  MessageCache.get 299999999 (MessageCache.set 0 [1; 2] MessageCache.init) = Some [1; 2] /\
  MessageCache.get 300000000 (MessageCache.set 0 [1; 2] MessageCache.init) = None.
Proof.
  split; [reflexivity|]. split.
  - refine (proj1 (proj1 (proj2 (C8_cache_obeys_ttl
              nat MessageCache.init [] [1; 2] 0%Z 0%Z 299999999%Z _))) _).
    + reflexivity.
    + reflexivity.
  - refine (proj1 (proj1 (proj2 (proj2 (C8_cache_obeys_ttl
              nat MessageCache.init [] [1; 2] 0%Z 0%Z 300000000%Z _)))) _).
    + reflexivity.
    + discriminate.
Defined.

(** ** Message source client *)

(** One iteration of the loop on a well-formed, non-empty page. *)
Lemma fetch_loop_page (fuel : nat) (srv : server) (limit request skip : nat)
    (messages items : list json) (total : Z) :
  srv request skip limit = page items total ->
  items <> [] ->
  fetch_loop (S fuel) srv limit request skip messages =
  if (Z.of_nat (List.length (messages ++ items)) >=? total)%Z
  then Some (Returned (messages ++ items))
  else fetch_loop fuel srv limit (S request) (skip + limit) (messages ++ items).
Proof.
  intros Hsrv Hne. cbn [fetch_loop]. rewrite Hsrv. unfold page.
  destruct items as [|x items]; [congruence|]. cbn.
  destruct (Z.of_nat (List.length (messages ++ x :: items)) >=? total)%Z; reflexivity.
Qed.

(** One iteration of the loop on a well-formed, empty page. *)
Lemma fetch_loop_empty_page (fuel : nat) (srv : server) (limit request skip : nat)
    (messages : list json) (total : Z) :
  srv request skip limit = page [] total ->
  fetch_loop (S fuel) srv limit request skip messages = Some (Returned messages).
Proof. intros Hsrv. cbn [fetch_loop]. rewrite Hsrv. reflexivity. Qed.

Lemma skipn_length_app {A : Type} (l r : list A) :
  skipn (List.length l) (l ++ r) = r.
Proof. induction l; simpl; auto. Qed.

Lemma firstn_add {A : Type} (a b : nat) (l : list A) :
  firstn (a + b) l = firstn a l ++ firstn b (skipn a l).
Proof.
  revert l; induction a as [|a IH]; intros l; simpl; [reflexivity|].
  destruct l as [|x l]; simpl.
  - now rewrite firstn_nil.
  - now rewrite IH.
Qed.

(** From a cursor that stands after [acc], the loop returns the whole
    corpus, given one unit of fuel per page that is left. *)
Lemma fetch_truthful_from (fuel limit request : nat) :
  forall acc rest : list json,
    0 < limit ->
    List.length rest < fuel * limit ->
    fetch_loop fuel (truthful_server (acc ++ rest)) limit request
               (List.length acc) acc
    = Some (Returned (acc ++ rest)).
Proof.
  revert request. induction fuel as [|fuel IH]; intros request acc rest Hl Hf.
  - simpl in Hf. lia.
  - assert (Hsrv : truthful_server (acc ++ rest) request (List.length acc) limit =
                   page (firstn limit rest) (Z.of_nat (List.length (acc ++ rest)))).
    { unfold truthful_server. now rewrite skipn_length_app. }
    destruct rest as [|x rest].
    + rewrite firstn_nil in Hsrv.
      rewrite (fetch_loop_empty_page _ _ _ _ _ _ _ Hsrv). now rewrite app_nil_r.
    + rewrite (fetch_loop_page _ _ _ _ _ _ _ _ Hsrv)
        by (destruct limit; [lia | simpl; discriminate]).
      destruct (Nat.le_gt_cases (List.length (x :: rest)) limit) as [Hle|Hgt].
      * rewrite (firstn_all2 _ Hle).
        destruct (Z.geb_spec (Z.of_nat (List.length (acc ++ x :: rest)))
                             (Z.of_nat (List.length (acc ++ x :: rest)))); [reflexivity|lia].
      * assert (Hlen : List.length (acc ++ firstn limit (x :: rest)) =
                       List.length acc + limit).
        { rewrite length_app, firstn_length_le; lia. }
        destruct (Z.geb_spec (Z.of_nat (List.length (acc ++ firstn limit (x :: rest))))
                             (Z.of_nat (List.length (acc ++ x :: rest)))) as [Hge|Hlt].
        { rewrite Hlen, length_app in Hge. lia. }
        rewrite <- Hlen.
        replace (acc ++ x :: rest)
          with ((acc ++ firstn limit (x :: rest)) ++ skipn limit (x :: rest))
          by (now rewrite <- app_assoc, firstn_skipn).
        apply IH; [exact Hl|].
        rewrite length_skipn. rewrite Nat.mul_succ_l in Hf. lia.
Qed.

(** The pages a truthful server sends, one after the other, make up the
    corpus. *)
Lemma pages_concat {A : Type} (limit : nat) (corpus : list A) (n : nat) :
  List.concat (map (fun k => firstn limit (skipn (k * limit) corpus)) (seq 0 n))
  = firstn (n * limit) corpus.
Proof.
  induction n as [|n IH]; [reflexivity|].
  rewrite seq_S, map_app, concat_app, IH. simpl.
  rewrite app_nil_r.
  replace (limit + n * limit) with (n * limit + limit) by lia.
  now rewrite firstn_add.
Qed.

(** C5. Against a server that holds a corpus and reports its true size,
    with any positive page size, the loop ends within
    [length corpus / limit + 1] page requests and returns the corpus, which
    is the concatenation of the pages in the order they were served; this
    covers the empty corpus and the corpus shorter than one page. *)
Theorem C5_truthful_total_fetches_whole_corpus :
  forall (corpus : list json) (limit fuel : nat),
    0 < limit ->
    List.length corpus / limit < fuel ->
    fetch_loop fuel (truthful_server corpus) limit 0 0 [] = Some (Returned corpus) /\
    List.concat
      (map (fun k => firstn limit (skipn (k * limit) corpus))
           (seq 0 (S (List.length corpus / limit)))) = corpus /\
    fetch_loop 1 (truthful_server []) limit 0 0 [] = Some (Returned []).
Proof.
  intros corpus limit fuel Hl Hf.
  assert (Hdiv : List.length corpus < S (List.length corpus / limit) * limit).
  { pose proof (Nat.div_mod_eq (List.length corpus) limit) as E.
    pose proof (Nat.mod_upper_bound (List.length corpus) limit) as B. nia. }
  split; [|split].
  - apply (fetch_truthful_from fuel limit 0 [] corpus Hl). nia.
  - rewrite pages_concat. apply firstn_all2. lia.
  - apply (fetch_truthful_from 1 limit 0 [] [] Hl). simpl. lia.
Qed.

Lemma C5_truthful_witness :
  let corpus := [JNum 1; JNum 2; JNum 3; JNum 4; JNum 5] in
  0 < 2 /\ List.length corpus / 2 < 3 /\
  fetch_loop 3 (truthful_server corpus) 2 0 0 [] = Some (Returned corpus).
Proof.
  intros corpus. split; [lia|]. split; [simpl; lia|].
  refine (proj1 (C5_truthful_total_fetches_whole_corpus corpus 2 3 _ _)).
  - lia.
  - simpl. lia.
Defined.

(** The same through [fetch_all_messages], with its page size of 1000 and
    a cache that has nothing valid: the corpus is returned and cached. *)
Lemma fetch_all_messages_truthful (corpus : list json) (now_get now_set : Z)
    (cache : MessageCache.t json) :
  MessageCache.get now_get cache = None ->
  fetch_all_messages (S (List.length corpus / 1000)) now_get now_set
                     (truthful_server corpus) cache
  = Some (Returned corpus, MessageCache.set now_set corpus cache).
Proof.
  intros Hc. unfold fetch_all_messages. rewrite Hc.
  assert (E : fetch_loop (S (List.length corpus / 1000)) (truthful_server corpus)
                         1000 0 0 [] = Some (Returned corpus)).
  { apply (fetch_truthful_from _ 1000 0 [] corpus); [lia|].
    pose proof (Nat.div_mod_eq (List.length corpus) 1000) as D.
    pose proof (Nat.mod_upper_bound (List.length corpus) 1000) as B. lia. }
  now rewrite E.
Qed.

(** Against [growing_server] the loop is still running after any number of
    requests. *)
Lemma fetch_growing_never_ends (fuel limit : nat) :
  forall (request skip : nat) (messages : list json),
    List.length messages = request ->
    fetch_loop fuel growing_server limit request skip messages = None.
Proof.
  induction fuel as [|fuel IH]; intros request skip messages Hlen; [reflexivity|].
  rewrite (fetch_loop_page fuel growing_server limit request skip messages
             [JNull] (Z.of_nat request + 2)) by (reflexivity || discriminate).
  assert (Hlen' : List.length (messages ++ [JNull]) = S request)
    by (rewrite length_app; simpl; lia).
  destruct (Z.geb_spec (Z.of_nat (List.length (messages ++ [JNull])))
                       (Z.of_nat request + 2)) as [Hge|Hlt]; [lia|].
  now apply IH.
Qed.

(** C2, as stated, fails: the loop has no cap on the number of page
    requests, and against a server that keeps sending non-empty pages with
    a total above what was received it never terminates. *)
Lemma C2_unbounded_against_growing_total : ~ terminates growing_server 1000.
Proof.
  intros [fuel H]. apply H. now apply fetch_growing_never_ends.
Qed.

(** A page that passed the [not items] test adds at least one message. *)
Lemma iterate_truthy_nonempty (items : json) (new_items : list json) :
  truthy items = true ->
  iterate items = Some new_items ->
  1 <= List.length new_items.
Proof.
  destruct items as [| b | n | s | l | kv]; simpl; try discriminate;
    intros Ht [= <-].
  - destruct s; simpl in *; [discriminate | lia].
  - destruct l; simpl in *; [discriminate | lia].
  - destruct kv; simpl in *; [discriminate | lia].
Qed.

(** When the comparison with the total says "not yet", the response
    carries a numeric total above the number of messages. *)
Lemma len_ge_false_total (kv : list (string * json)) (n : nat) :
  len_ge n (match assoc "total" kv with Some v => v | None => JNum 0 end)
    = Some false ->
  exists t, reported_total (Body (Some (JDict kv))) = Some t /\ (Z.of_nat n < t)%Z.
Proof.
  unfold reported_total.
  destruct (assoc "total" kv) as [[| b | t | s | l | kv']|]; simpl;
    try discriminate; intros [= H];
    eexists; (split; [reflexivity|]);
    match type of H with (?a >=? ?b)%Z = false =>
      destruct (Z.geb_spec a b); [discriminate | assumption] end.
Qed.

Lemma fetch_loop_bounded_total (srv : server) (limit bound : nat) :
  (forall request skip t,
      reported_total (srv request skip limit) = Some t -> (t <= Z.of_nat bound)%Z) ->
  forall (fuel request skip : nat) (messages : list json),
    0 < fuel ->
    bound <= fuel + List.length messages ->
    fetch_loop fuel srv limit request skip messages <> None.
Proof.
  intros Hb fuel. induction fuel as [|fuel IH]; intros request skip messages Hf Hm;
    [lia|].
  cbn [fetch_loop]. specialize (Hb request skip).
  destruct (srv request skip limit) as [text|[data|]]; try discriminate.
  destruct data as [| b | n | s | l | kv]; try discriminate.
  cbn [dict_get].
  destruct (truthy _) eqn:Ht; cbn [negb]; [|discriminate].
  destruct (iterate _) as [new_items|] eqn:Hi; [|discriminate].
  pose proof (iterate_truthy_nonempty _ _ Ht Hi) as Hnew.
  destruct (len_ge _ _) as [[|]|] eqn:Hge; try discriminate.
  apply len_ge_false_total in Hge. destruct Hge as (t & Ht' & Hlt).
  specialize (Hb t Ht'). rewrite length_app in Hlt.
  apply IH; [|rewrite length_app]; lia.
Qed.

(** C2, amended. The loop has no iteration cap of its own; it terminates,
    however wrong or fluctuating the reported totals are, against every
    server whose reported totals stay at or below some bound, and then
    within [max 1 bound] page requests. *)
Theorem C2_terminates_when_totals_are_bounded :
  forall (srv : server) (limit bound : nat),
    (forall request skip t,
        reported_total (srv request skip limit) = Some t ->
        (t <= Z.of_nat bound)%Z) ->
    fetch_loop (Nat.max 1 bound) srv limit 0 0 [] <> None /\
    terminates srv limit.
Proof.
  intros srv limit bound Hb.
  assert (H : fetch_loop (Nat.max 1 bound) srv limit 0 0 [] <> None).
  { apply (fetch_loop_bounded_total srv limit bound Hb); cbn [List.length]; lia. }
  split; [exact H|]. now exists (Nat.max 1 bound).
Qed.

Lemma C2_bounded_totals_witness :
  (forall request skip t,
      reported_total (fickle_server request skip 1000) = Some t ->
      (t <= Z.of_nat 4)%Z) /\
  fetch_loop (Nat.max 1 4) fickle_server 1000 0 0 [] <> None /\
  fetch_loop 3 fickle_server 1000 0 0 [] = None.
Proof.
  assert (Hb : forall request skip t,
             reported_total (fickle_server request skip 1000) = Some t ->
             (t <= Z.of_nat 4)%Z).
  { intros request skip t. unfold fickle_server, page, reported_total.
    cbn [assoc String.eqb Ascii.eqb Bool.eqb].
    destruct (Nat.even request); intros [= <-]; simpl; lia. }
  split; [exact Hb|]. split; [|reflexivity].
  exact (proj1 (C2_terminates_when_totals_are_bounded fickle_server 1000 4 Hb)).
Defined.

(** C7, as stated, fails: a JSON object without [items] and [total] does
    not have the expected shape, yet the fetch does not fail on it; the
    missing [items] is read as an empty page, and the empty corpus is
    returned and cached. *)
Lemma C7_object_without_items_is_accepted :
  ~ expected_shape (Body (Some (JDict []))) /\
  fetch_all_messages 1 0 0 (fun _ _ _ => Body (Some (JDict []))) MessageCache.init
  = Some (Returned [], MessageCache.set 0 [] MessageCache.init).
Proof.
  split; [|reflexivity].
  intros (kv & items & total & H & Hitems & _).
  injection H as <-. discriminate.
Qed.

(** An [HTTPException] leaves the loop only when some request met an
    [httpx] error, and carries the text of that error. *)
Lemma fetch_http_exception_origin (srv : server) (limit : nat) :
  forall (fuel request skip : nat) (messages : list json) (status : Z)
         (detail : string),
    fetch_loop fuel srv limit request skip messages =
      Some (Raised (HTTPException status detail)) ->
    exists k text,
      k < fuel /\
      srv (request + k) (skip + k * limit) limit = HTTPError text /\
      status = 500%Z /\
      detail = ("Failed to fetch messages from API: " ++ text)%string.
Proof.
  induction fuel as [|fuel IH]; intros request skip messages status detail H;
    [discriminate|].
  cbn [fetch_loop] in H.
  destruct (srv request skip limit) as [text|[data|]] eqn:Hsrv; try discriminate.
  - injection H as <- <-. exists 0, text.
    cbn [Nat.mul]. rewrite !Nat.add_0_r. repeat split; [lia | exact Hsrv].
  - destruct (dict_get data "items" (JList [])) as [items|]; [|discriminate].
    destruct (negb (truthy items)); [discriminate|].
    destruct (iterate items) as [new_items|]; [|discriminate].
    destruct (dict_get data "total" (JNum 0)) as [total|]; [|discriminate].
    destruct (len_ge _ total) as [[|]|]; try discriminate.
    apply IH in H. destruct H as (k & text & Hk & Hsrv' & Hs & Hd).
    exists (S k), text. split; [lia|]. split; [|now split].
    rewrite <- Hsrv'. f_equal; lia.
Qed.

(** C7, amended. The fetch has no class of protocol errors and does not
    check the shape of a page.  At any request and with any messages
    accumulated: a body that is not valid JSON ends the fetch with the
    decoding error, and JSON that is not an object with an attribute error,
    neither of them an [HTTPException]; an object without [items] is read
    as an empty page, the fetch returning what it has accumulated; an
    object with a non-empty list of items and no [total] is read with the
    total 0, the fetch returning what it has accumulated followed by these
    items; an [httpx] error ends the fetch with the [HTTPException] of
    status 500 and the "Failed to fetch messages" detail, and this exception
    is raised for [httpx] errors only. *)
Theorem C7_fetch_reads_pages_without_validation :
  forall (srv : server) (fuel limit request skip : nat) (messages : list json),
    match srv request skip limit with
    | HTTPError text =>
        fetch_loop (S fuel) srv limit request skip messages =
        Some (Raised (HTTPException 500
                        ("Failed to fetch messages from API: " ++ text)%string))
    | Body None =>
        fetch_loop (S fuel) srv limit request skip messages =
        Some (Raised JSONDecodeError)
    | Body (Some (JDict kv)) =>
        match assoc "items" kv with
        | None =>
            fetch_loop (S fuel) srv limit request skip messages =
            Some (Returned messages)
        | Some (JList (item :: items)) =>
            match assoc "total" kv with
            | None =>
                fetch_loop (S fuel) srv limit request skip messages =
                Some (Returned (messages ++ item :: items))
            | Some _ => True
            end
        | Some _ => True
        end
    | Body (Some _) =>
        fetch_loop (S fuel) srv limit request skip messages =
        Some (Raised AttributeError)
    end /\
    (forall status detail,
        fetch_loop fuel srv limit request skip messages =
          Some (Raised (HTTPException status detail)) ->
        exists k text,
          k < fuel /\
          srv (request + k) (skip + k * limit) limit = HTTPError text /\
          status = 500%Z /\
          detail = ("Failed to fetch messages from API: " ++ text)%string).
Proof.
  intros srv fuel limit request skip messages. split.
  - cbn [fetch_loop].
    destruct (srv request skip limit) as [text|[data|]]; try reflexivity.
    destruct data as [| b | n | s | l | kv]; try reflexivity.
    cbn [dict_get].
    destruct (assoc "items" kv) as [[| b | n | s | [|item items] | kv']|];
      try exact I; [|reflexivity].
    destruct (assoc "total" kv) as [total|]; [exact I|].
    cbn [truthy negb iterate len_ge].
    destruct (Z.geb_spec (Z.of_nat (List.length (messages ++ item :: items))) 0);
      [reflexivity | lia].
  - apply fetch_http_exception_origin.
Qed.

Lemma C7_fetch_reads_pages_witness :
  fetch_loop 1 (fun _ _ _ => Body None) 1000 0 0 [] = Some (Raised JSONDecodeError) /\
  fetch_loop 1 (fun _ _ _ => Body (Some (JList []))) 1000 0 0 []
    = Some (Raised AttributeError) /\
  fetch_loop 1 (fun _ _ _ => Body (Some (JDict [("total", JNum 7)]))) 1000 0 0 [JNull]
    = Some (Returned [JNull]) /\
  fetch_loop 1 (fun _ _ _ => Body (Some (JDict [("items", JList [JNum 1; JNum 2])])))
             1000 0 0 [JNull]
    = Some (Returned [JNull; JNum 1; JNum 2]) /\
  (fetch_loop 3 (failing_at 1 "timed out" fickle_server) 1000 0 0 [] =
     Some (Raised (HTTPException 500 "Failed to fetch messages from API: timed out")) /\
   exists k text,
     k < 3 /\
     failing_at 1 "timed out" fickle_server (0 + k) (0 + k * 1000) 1000 = HTTPError text /\
     500%Z = 500%Z /\
     "Failed to fetch messages from API: timed out" =
       ("Failed to fetch messages from API: " ++ text)%string).
Proof.
  split.
  { exact (proj1 (C7_fetch_reads_pages_without_validation
                    (fun _ _ _ => Body None) 0 1000 0 0 [])). }
  split.
  { exact (proj1 (C7_fetch_reads_pages_without_validation
                    (fun _ _ _ => Body (Some (JList []))) 0 1000 0 0 [])). }
  split.
  { exact (proj1 (C7_fetch_reads_pages_without_validation
                    (fun _ _ _ => Body (Some (JDict [("total", JNum 7)])))
                    0 1000 0 0 [JNull])). }
  split.
  { exact (proj1 (C7_fetch_reads_pages_without_validation
                    (fun _ _ _ => Body (Some (JDict [("items", JList [JNum 1; JNum 2])])))
                    0 1000 0 0 [JNull])). }
  split; [reflexivity|].
  exact (proj2 (C7_fetch_reads_pages_without_validation
                  (failing_at 1 "timed out" fickle_server) 3 1000 0 0 [])
               500%Z "Failed to fetch messages from API: timed out" eq_refl).
Defined.

(** ** Context builder: grouping *)

Lemma group_loop_app (a b : list Message) (d : user_dict) :
  group_loop (a ++ b) d = group_loop b (group_loop a d).
Proof. revert d; induction a as [|m a IH]; intros d; simpl; auto. Qed.

Lemma first_seen_In (l : list string) (n : string) :
  In n (first_seen l) <-> In n l.
Proof.
  induction l as [|a l IH]; simpl; [tauto|].
  rewrite filter_In, IH, negb_true_iff, String.eqb_neq.
  destruct (string_dec a n) as [->|Hne]; [tauto|].
  split; [tauto|]. intros [H|H]; [congruence|]. right; split; congruence.
Qed.

Lemma first_seen_NoDup (l : list string) : NoDup (first_seen l).
Proof.
  induction l as [|a l IH]; simpl; constructor.
  - rewrite filter_In, String.eqb_refl. intros [_ H]. discriminate.
  - now apply NoDup_filter.
Qed.

Lemma filter_not_In (u : string) (l : list string) :
  ~ In u l -> filter (fun m => negb (m =? u)%string) l = l.
Proof.
  induction l as [|a l IH]; simpl; intros H; [reflexivity|].
  destruct (String.eqb_spec a u) as [->|Hne]; simpl.
  - tauto.
  - rewrite IH; tauto.
Qed.

(** Appending a name to the input leaves the keys as they are when the
    name was seen before, and adds it at the end otherwise. *)
Lemma first_seen_snoc (l : list string) (u : string) :
  first_seen (l ++ [u]) =
  if in_dec string_dec u l then first_seen l else first_seen l ++ [u].
Proof.
  induction l as [|a l IH]; simpl; [reflexivity|].
  rewrite IH. destruct (string_dec a u) as [->|Hne].
  - destruct (in_dec string_dec u l); [reflexivity|].
    rewrite filter_app. simpl. rewrite String.eqb_refl. simpl.
    now rewrite app_nil_r.
  - destruct (in_dec string_dec u l); [reflexivity|].
    rewrite filter_app. simpl.
    destruct (String.eqb_spec u a); [congruence|reflexivity].
Qed.

(** [dict_append] on a dict whose keys are distinct. *)
Lemma dict_append_map (f : string -> list string) (u line : string) :
  forall ks : list string,
    NoDup ks ->
    dict_append u line (map (fun n => (n, f n)) ks) =
    if in_dec string_dec u ks
    then map (fun n => (n, if (n =? u)%string then f n ++ [line] else f n)) ks
    else map (fun n => (n, f n)) ks ++ [(u, [line])].
Proof.
  induction ks as [|k ks IH]; intros Hnd; [reflexivity|].
  inversion Hnd as [|? ? Hk Hnd']; subst. cbn [map dict_append].
  destruct (String.eqb_spec k u) as [->|Hne].
  - destruct (in_dec string_dec u (u :: ks)) as [_|Hn]; [|exfalso; apply Hn; now left].
    cbn [map]. f_equal.
    apply map_ext_in. intros n Hn.
    destruct (String.eqb_spec n u); [subst; tauto|reflexivity].
  - rewrite (IH Hnd').
    destruct (in_dec string_dec u ks) as [Hin|Hnin];
      destruct (in_dec string_dec u (k :: ks)) as [Hin'|Hnin'];
      try reflexivity.
    + exfalso. apply Hnin'. now right.
    + destruct Hin' as [?|?]; [congruence|tauto].
Qed.

Lemma messages_of_snoc (n : string) (ms : list Message) (m : Message) :
  messages_of n (ms ++ [m]) =
  messages_of n ms ++ (if (user_name m =? n)%string then [m] else []).
Proof. unfold messages_of. rewrite filter_app. reflexivity. Qed.

Lemma messages_of_absent (n : string) (ms : list Message) :
  ~ In n (map user_name ms) -> messages_of n ms = [].
Proof.
  induction ms as [|m ms IH]; simpl; intros H; [reflexivity|].
  destruct (String.eqb_spec (user_name m) n); [tauto|]. apply IH. tauto.
Qed.

Lemma messages_of_present (n : string) (ms : list Message) :
  In n (map user_name ms) -> messages_of n ms <> [].
Proof.
  induction ms as [|m ms IH]; simpl; [tauto|].
  destruct (String.eqb_spec (user_name m) n); [discriminate|].
  intros [?|?]; [congruence|auto].
Qed.

(** What the grouping loop leaves in [user_messages]: one entry per
    distinct user name, in first-seen order, with the lines of that user's
    messages in input order. *)
Lemma group_loop_spec (messages : list Message) :
  group_loop messages [] =
  map (fun name => (name, map render (messages_of name messages)))
      (first_seen (map user_name messages)).
Proof.
  induction messages as [|m ms IH] using rev_ind; [reflexivity|].
  rewrite group_loop_app, IH. cbn [group_loop].
  rewrite dict_append_map by apply first_seen_NoDup.
  rewrite map_app. cbn [map]. rewrite first_seen_snoc.
  destruct (in_dec string_dec (user_name m) (first_seen (map user_name ms))) as [Hin|Hnin];
    destruct (in_dec string_dec (user_name m) (map user_name ms)) as [Hin'|Hnin'].
  - apply map_ext. intros n. rewrite messages_of_snoc, map_app.
    rewrite (String.eqb_sym n).
    destruct (user_name m =? n)%string; [reflexivity | now rewrite app_nil_r].
  - exfalso. apply Hnin'. exact (proj1 (first_seen_In _ _) Hin).
  - exfalso. apply Hnin. exact (proj2 (first_seen_In _ _) Hin').
  - rewrite map_app. cbn [map]. f_equal.
    + apply map_ext_in. intros n Hn. rewrite messages_of_snoc.
      destruct (String.eqb_spec (user_name m) n) as [E|_];
        [subst; tauto | now rewrite app_nil_r].
    + rewrite messages_of_snoc, String.eqb_refl.
      now rewrite (messages_of_absent _ _ Hnin').
Qed.

(** ** Context builder: sorting *)

Lemma insert_item_map (f : string -> list string) (n : string) (ks : list string) :
  insert_item (n, f n) (map (fun k => (k, f k)) ks) =
  map (fun k => (k, f k)) (insert_name n ks).
Proof.
  induction ks as [|k ks IH]; simpl; [reflexivity|].
  destruct (String.leb n k); simpl; [reflexivity | now rewrite IH].
Qed.

Lemma sorted_items_map (f : string -> list string) (ks : list string) :
  sorted_items (map (fun k => (k, f k)) ks) =
  map (fun k => (k, f k)) (sort_names ks).
Proof.
  unfold sorted_items, sort_names.
  induction ks as [|k ks IH]; simpl; [reflexivity|].
  now rewrite IH, insert_item_map.
Qed.

Lemma insert_name_Permutation (n : string) (l : list string) :
  Permutation (insert_name n l) (n :: l).
Proof.
  induction l as [|k l IH]; simpl; [apply Permutation_refl|].
  destruct (String.leb n k); [apply Permutation_refl|].
  rewrite IH. apply perm_swap.
Qed.

Lemma sort_names_Permutation (l : list string) : Permutation (sort_names l) l.
Proof.
  unfold sort_names. induction l as [|k l IH]; simpl; [constructor|].
  rewrite insert_name_Permutation. now constructor.
Qed.

Lemma insert_name_Sorted (n : string) (l : list string) :
  Sorted ascending l -> Sorted ascending (insert_name n l).
Proof.
  induction l as [|k l IH]; intros Hs; simpl.
  - repeat constructor.
  - destruct (String.leb n k) eqn:Hnk.
    + constructor; [exact Hs | now constructor].
    + inversion Hs as [|? ? Hs' Hhd]; subst.
      constructor; [now apply IH|].
      assert (Hkn : ascending k n).
      { destruct (String.leb_total n k) as [H|H]; [congruence | exact H]. }
      destruct l as [|k' l]; simpl.
      * now constructor.
      * destruct (String.leb n k'); constructor; [exact Hkn|].
        now inversion Hhd.
Qed.

Lemma sort_names_Sorted (l : list string) : Sorted ascending (sort_names l).
Proof.
  unfold sort_names. induction l as [|k l IH]; simpl; [constructor|].
  now apply insert_name_Sorted.
Qed.

(** ** Context builder: emission *)

(** The inner loop on a non-empty group: what it appends, how the counter
    moves, and how this reads on the flat list of parts. *)
Lemma emit_lines_stop (max_messages : Z) :
  forall (msgs : list string) (st : builder),
    msgs <> [] ->
    exists emitted,
      context_parts (emit_lines msgs max_messages st) = context_parts st ++ emitted /\
      total_messages (emit_lines msgs max_messages st)
        = (total_messages st + count_lines emitted)%Z /\
      forall rest,
        spec_stop_at max_messages (total_messages st) (map Line msgs ++ rest) =
        emitted ++
          (if (total_messages (emit_lines msgs max_messages st) >=? max_messages)%Z
           then []
           else spec_stop_at max_messages
                  (total_messages (emit_lines msgs max_messages st)) rest).
Proof.
  induction msgs as [|msg msgs IH]; intros st Hne; [congruence|].
  cbn [emit_lines map app spec_stop_at total_messages context_parts].
  destruct (total_messages st + 1 >=? max_messages)%Z eqn:Hstop.
  - exists [Line msg]. cbn [total_messages context_parts count_lines].
    rewrite Hstop. repeat split; try reflexivity; lia.
  - destruct msgs as [|msg' msgs].
    + exists [Line msg]. cbn [emit_lines total_messages context_parts count_lines map app].
      rewrite Hstop. repeat split; try reflexivity; lia.
    + destruct (IH (mkBuilder (context_parts st ++ [Line msg]) (total_messages st + 1)))
        as (emitted & Hparts & Htotal & Hflat); [discriminate|].
      cbn [total_messages context_parts] in Hparts, Htotal, Hflat.
      exists (Line msg :: emitted). split; [|split].
      * rewrite Hparts, <- app_assoc. reflexivity.
      * rewrite Htotal. cbn [count_lines]. lia.
      * intros rest. rewrite Hflat. reflexivity.
Qed.

(** The outer loop over groups that all contribute at least one line. *)
Lemma emit_groups_spec (n_messages : nat) (max_messages : Z) :
  forall (groups : user_dict) (st : builder),
    (forall g, In g groups -> msgs_to_include n_messages (snd g) <> []) ->
    context_parts (emit_groups groups n_messages max_messages st) =
    context_parts st ++
      spec_stop_at max_messages (total_messages st)
        (flat_map (fun g => Header (fst g)
                            :: map Line (msgs_to_include n_messages (snd g)))
                  groups).
Proof.
  induction groups as [|[name msgs] groups IH]; intros st Hne.
  - simpl. now rewrite app_nil_r.
  - cbn [emit_groups flat_map fst snd app spec_stop_at].
    destruct (emit_lines_stop max_messages (msgs_to_include n_messages msgs)
                (mkBuilder (context_parts st ++ [Header name]) (total_messages st)))
      as (emitted & Hparts & Htotal & Hflat).
    { apply (Hne (name, msgs)). now left. }
    cbn [total_messages context_parts] in Hparts, Htotal, Hflat.
    rewrite Hflat.
    destruct (total_messages (emit_lines _ _ _) >=? max_messages)%Z.
    + rewrite Hparts, app_nil_r, <- app_assoc. reflexivity.
    + rewrite IH by (intros g Hg; apply Hne; now right).
      rewrite Hparts, <- !app_assoc. reflexivity.
Qed.

Lemma msgs_to_include_map (n : nat) (group : list Message) :
  msgs_to_include n (map render group) = map render (spec_cap n group).
Proof.
  unfold msgs_to_include, spec_cap.
  destruct (n <? 200)%nat; [reflexivity | apply firstn_map].
Qed.

Lemma spec_cap_nonempty (n : nat) (group : list Message) :
  group <> [] -> spec_cap n group <> [].
Proof.
  unfold spec_cap. destruct (n <? 200)%nat; [auto|].
  destruct group; [congruence | discriminate].
Qed.

(** The builder's parts are the sections of the design, cut at the line
    with which the running total reaches the maximum. *)
Lemma create_context_parts_spec (messages : list Message) (max_messages : Z) :
  create_context_parts messages max_messages =
  spec_stop_at max_messages 0 (spec_sections messages).
Proof.
  unfold create_context_parts.
  rewrite group_loop_spec, sorted_items_map, emit_groups_spec.
  - cbn [context_parts total_messages app]. f_equal.
    unfold spec_sections. rewrite flat_map_concat_map, map_map, <- flat_map_concat_map.
    apply flat_map_ext. intros name. cbn [fst snd]. unfold spec_section.
    now rewrite msgs_to_include_map, map_map.
  - intros g Hg. apply in_map_iff in Hg. destruct Hg as (name & <- & Hin).
    cbn [snd]. rewrite msgs_to_include_map.
    intros H. apply map_eq_nil in H. revert H.
    apply spec_cap_nonempty, messages_of_present.
    apply first_seen_In.
    exact (Permutation_in _ (sort_names_Permutation _) Hin).
Qed.

(** A cut list has at most [max 1 max_lines] lines when counting starts
    from zero. *)
Lemma spec_stop_at_count (max_lines : Z) (parts : list part) :
  forall total,
    (total + count_lines (spec_stop_at max_lines total parts)
     <= Z.max (total + 1) max_lines)%Z.
Proof.
  induction parts as [|[name|text] parts IH]; intros total;
    cbn [spec_stop_at count_lines].
  - lia.
  - apply IH.
  - destruct (Z.geb_spec (total + 1) max_lines) as [Hge|Hlt];
      cbn [count_lines]; [lia|].
    specialize (IH (total + 1)%Z). lia.
Qed.

(** Strictly below the maximum nothing is cut. *)
Lemma spec_stop_at_all (max_lines : Z) (parts : list part) :
  forall total,
    (total + count_lines parts < max_lines)%Z ->
    spec_stop_at max_lines total parts = parts.
Proof.
  assert (Hpos : forall l, (0 <= count_lines l)%Z).
  { induction l as [|[?|?] ? ?]; cbn [count_lines]; lia. }
  induction parts as [|[name|text] parts IH]; intros total Hlt;
    cbn [spec_stop_at count_lines] in *.
  - reflexivity.
  - now rewrite IH.
  - specialize (Hpos parts).
    destruct (Z.geb_spec (total + 1) max_lines) as [Hge|_]; [lia|].
    rewrite IH; [reflexivity | lia].
Qed.

(** C4. The parts the builder produces are those of the algorithm as it
    is worded: one section per distinct user name, the names in ascending
    lexicographic order without repetition, each section a header followed
    by the rendered lines of that user's messages in input order, all of
    them when the input has fewer than 200 messages and the first 50
    otherwise; the whole is cut at the line with which the running total
    reaches the maximum.  The text is the parts joined by newlines, where
    the header of a user is a newline followed by [=== userName ===] and a
    line is the first 10 characters of the timestamp in brackets, a space
    and the message; on three messages of two users the text is written
    out. *)
Theorem C4_context_builder_follows_algorithm :
  forall (messages : list Message) (max_messages : Z),
    create_context_parts messages max_messages =
      spec_stop_at max_messages 0 (spec_sections messages) /\
    create_context_from_messages messages max_messages =
      concat (String (ascii_of_nat 10) "")
        (map (fun p =>
                match p with
                | Header name =>
                    String (ascii_of_nat 10) ("=== " ++ name ++ " ===")
                | Line text => text
                end)
             (spec_stop_at max_messages 0 (spec_sections messages))) /\
    Sorted ascending (sort_names (first_seen (map user_name messages))) /\
    NoDup (sort_names (first_seen (map user_name messages))) /\
    (forall name,
        In name (sort_names (first_seen (map user_name messages))) <->
        In name (map user_name messages)) /\
    (forall name,
        spec_section messages name =
        Header name
        :: map (fun msg => Line ("[" ++ substring 0 10 (timestamp msg) ++ "] "
                                 ++ message msg)%string)
               (if (List.length messages <? 200)%nat
                then messages_of name messages
                else firstn 50 (messages_of name messages))) /\
    create_context_from_messages
      [mkMessage "1" "u1" "Vikram Desai" "Rent a car" "2025-01-03T10:00:00Z";
       mkMessage "2" "u2" "Layla Hassan" "Book a table" "2025-01-02T09:30:00Z";
       mkMessage "3" "u1" "Vikram Desai" "Cancel the car" "2025-01-04T08:00:00Z"] 500
    = "
=== Layla Hassan ===
[2025-01-02] Book a table

=== Vikram Desai ===
[2025-01-03] Rent a car
[2025-01-04] Cancel the car".
Proof.
  intros messages max_messages.
  split; [apply create_context_parts_spec|].
  split; [unfold create_context_from_messages; now rewrite create_context_parts_spec|].
  split; [apply sort_names_Sorted|].
  split.
  { apply (Permutation_NoDup (Permutation_sym (sort_names_Permutation _))).
    apply first_seen_NoDup. }
  split.
  { intros name. split; intros H.
    - apply (proj1 (first_seen_In _ _)).
      exact (Permutation_in _ (sort_names_Permutation _) H).
    - apply (Permutation_in _ (Permutation_sym (sort_names_Permutation _))).
      exact (proj2 (first_seen_In _ _) H). }
  split; [intros name; reflexivity|].
  reflexivity.
Qed.

(** With fewer lines than the maximum the builder emits every section
    whole. *)
Lemma create_context_parts_uncut (messages : list Message) (max_messages : Z) :
  (count_lines (spec_sections messages) < max_messages)%Z ->
  create_context_parts messages max_messages = spec_sections messages.
Proof.
  intros H. rewrite create_context_parts_spec. now apply spec_stop_at_all.
Qed.

(** Three users, unsorted and interleaved in the input. *)
Example create_context_from_messages_example :
  create_context_from_messages
    [mkMessage "1" "u1" "Vikram Desai" "Rent a car" "2025-01-03T10:00:00Z";
     mkMessage "2" "u2" "Layla Hassan" "Book a table" "2025-01-02T09:30:00Z";
     mkMessage "3" "u1" "Vikram Desai" "Cancel the car" "2025-01-04T08:00:00Z"] 500
  = (newline ++ "=== Layla Hassan ===" ++ newline
     ++ "[2025-01-02] Book a table" ++ newline
     ++ newline ++ "=== Vikram Desai ===" ++ newline
     ++ "[2025-01-03] Rent a car" ++ newline
     ++ "[2025-01-04] Cancel the car")%string.
Proof. reflexivity. Qed.

(** The number of message lines: never above the larger of 1 and the
    maximum, hence never above a maximum of at least 1. *)
Lemma context_lines_bounded (messages : list Message) (max_messages : Z) :
  (count_lines (create_context_parts messages max_messages) <= Z.max 1 max_messages)%Z.
Proof.
  rewrite create_context_parts_spec.
  pose proof (spec_stop_at_count max_messages (spec_sections messages) 0). lia.
Qed.

(** X17. For a maximum of at least 1 the number of message lines is at most
    the maximum. *)
Lemma context_lines_within_positive_maximum (messages : list Message)
    (max_messages : Z) :
  (1 <= max_messages)%Z ->
  (count_lines (create_context_parts messages max_messages) <= max_messages)%Z.
Proof. intros H. pose proof (context_lines_bounded messages max_messages). lia. Qed.

(** The builder stops in the middle of a group. *)
Example create_context_parts_stops_mid_group :
  create_context_parts
    [mkMessage "1" "u1" "Vikram Desai" "Rent a car" "2025-01-03T10:00:00Z";
     mkMessage "2" "u2" "Layla Hassan" "Book a table" "2025-01-02T09:30:00Z";
     mkMessage "3" "u1" "Vikram Desai" "Cancel the car" "2025-01-04T08:00:00Z"] 2
  = [Header "Layla Hassan"; Line "[2025-01-02] Book a table";
     Header "Vikram Desai"; Line "[2025-01-03] Rent a car"].
Proof. reflexivity. Qed.

(** C1. With a maximum of 0 and one message in the input the builder
    emits one message line: the running total is compared with the maximum
    only after a line has been appended. *)
Theorem C1_zero_maximum_still_emits_a_line :
  create_context_parts
    [mkMessage "1" "u1" "Layla Hassan" "Book a table" "2025-01-02T09:30:00Z"] 0
  = [Header "Layla Hassan"; Line "[2025-01-02] Book a table"] /\
  count_lines
    (create_context_parts
       [mkMessage "1" "u1" "Layla Hassan" "Book a table" "2025-01-02T09:30:00Z"] 0)
  = 1%Z.
Proof. split; reflexivity. Qed.

(** ** Answer orchestrator *)

Lemma filter_empty_iff (messages : list Message) (user_names : list string) :
  user_names <> [] ->
  (filter_messages_by_user messages user_names = [] <->
   forall msg, In msg messages -> name_matches user_names msg = false).
Proof.
  intros Hne.
  assert (E : filter_messages_by_user messages user_names =
              filter (name_matches user_names) messages).
  { destruct user_names; [congruence|].
    unfold filter_messages_by_user. now rewrite filter_loop_spec. }
  rewrite E. clear E. induction messages as [|m ms IH]; simpl.
  - split; [intros _ msg [] | reflexivity].
  - destruct (name_matches user_names m) eqn:Hm.
    + split; [discriminate|]. intros H. specialize (H m (or_introl eq_refl)). congruence.
    + rewrite IH. split.
      * intros H msg [<-|Hin]; auto.
      * intros H msg Hin. apply H. now right.
Qed.

(** C6. When the question names known users and no message matches any of
    them, the orchestrator goes on without failing: its working set is the
    whole corpus, the context in the prompt is built from the whole corpus,
    and the miss is recorded.  The empty result of the filter is a faithful
    signal: for these names and any corpus, the miss is recorded exactly
    when the filter returns nothing, which is exactly when no message of
    the corpus matches. *)
Theorem C6_miss_falls_back_to_full_corpus :
  forall (question : string) (messages : list Message),
    extract_user_names question <> [] ->
    filter_messages_by_user messages (extract_user_names question) = [] ->
    select_messages question messages =
      (messages, Some (NoMessagesFound (extract_user_names question))) /\
    prepare_prompt question messages =
      (user_prompt question (create_context_from_messages messages 500),
       Some (NoMessagesFound (extract_user_names question))) /\
    (forall corpus,
        snd (select_messages question corpus) =
          Some (NoMessagesFound (extract_user_names question)) <->
        filter_messages_by_user corpus (extract_user_names question) = []) /\
    (forall corpus,
        filter_messages_by_user corpus (extract_user_names question) = [] <->
        forall msg, In msg corpus ->
                    name_matches (extract_user_names question) msg = false).
Proof.
  intros question messages Hnames Hmiss.
  assert (Hsel : forall corpus,
             select_messages question corpus =
             match filter_messages_by_user corpus (extract_user_names question) with
             | [] => (corpus, Some (NoMessagesFound (extract_user_names question)))
             | m :: ms =>
                 (m :: ms, Some (FilteredTo (List.length (m :: ms))
                                            (extract_user_names question)))
             end).
  { intros corpus. unfold select_messages.
    destruct (extract_user_names question) as [|n ns]; [congruence|].
    destruct (filter_messages_by_user corpus (n :: ns)); reflexivity. }
  assert (E : select_messages question messages =
              (messages, Some (NoMessagesFound (extract_user_names question)))).
  { now rewrite Hsel, Hmiss. }
  split; [exact E|]. split; [unfold prepare_prompt; now rewrite E|]. split.
  - intros corpus. rewrite Hsel.
    destruct (filter_messages_by_user corpus (extract_user_names question));
      simpl; split; intros H; try reflexivity; discriminate.
  - intros corpus. now apply filter_empty_iff.
Qed.

Lemma C6_miss_witness :
  let vikram := mkMessage "2" "u2" "Vikram Desai" "Rent a car" "2025-01-03T10:00:00Z" in
  extract_user_names "Where does Hans live?" <> [] /\
  filter_messages_by_user [vikram] (extract_user_names "Where does Hans live?") = [] /\
  select_messages "Where does Hans live?" [vikram] =
    ([vikram], Some (NoMessagesFound ["Hans"])).
Proof.
  intros vikram. split; [discriminate|]. split; [reflexivity|].
  refine (proj1 (C6_miss_falls_back_to_full_corpus "Where does Hans live?" [vikram] _ _)).
  - discriminate.
  - reflexivity.
Defined.

(** * Further properties *)

(** ** The fetch loop beyond well-behaved servers *)

(** The loop consults the server only at the cursor positions: the
    request number [k] is made with [skip = k * limit]. *)
Lemma fetch_loop_cursor (srv srv' : server) (limit : nat) :
  (forall k, srv k (k * limit) limit = srv' k (k * limit) limit) ->
  forall (fuel request : nat) (messages : list json),
    fetch_loop fuel srv limit request (request * limit) messages =
    fetch_loop fuel srv' limit request (request * limit) messages.
Proof.
  intros Hagree fuel. induction fuel as [|fuel IH]; intros request messages;
    [reflexivity|].
  cbn [fetch_loop]. rewrite Hagree.
  destruct (srv' request (request * limit) limit) as [text|[data|]]; try reflexivity.
  destruct (dict_get data "items" (JList [])) as [items|]; [|reflexivity].
  destruct (negb (truthy items)); [reflexivity|].
  destruct (iterate items) as [new_items|]; [|reflexivity].
  destruct (dict_get data "total" (JNum 0)) as [total|]; [|reflexivity].
  destruct (len_ge _ total) as [[|]|]; try reflexivity.
  replace (request * limit + limit) with (S request * limit) by lia.
  apply IH.
Qed.

(** X1. The result of the loop depends on the server only through its
    answers at the cursor positions: the request number [k] is made with
    [skip = k * limit], and two servers that agree there give the same
    outcome. *)
Theorem fetch_depends_on_cursor_positions_only :
  forall (srv srv' : server) (limit fuel : nat),
    (forall k, srv k (k * limit) limit = srv' k (k * limit) limit) ->
    fetch_loop fuel srv limit 0 0 [] = fetch_loop fuel srv' limit 0 0 [].
Proof.
  intros srv srv' limit fuel H.
  exact (fetch_loop_cursor srv srv' limit H fuel 0 []).
Qed.

Lemma fetch_depends_on_cursor_witness :
  (forall k, truthful_server [JNum 1; JNum 2; JNum 3] k (k * 2) 2 =
             (fun request _ limit =>
                truthful_server [JNum 1; JNum 2; JNum 3] 0 (request * limit) limit)
               k (k * 2) 2) /\
  fetch_loop 2 (fun request _ limit =>
                  truthful_server [JNum 1; JNum 2; JNum 3] 0 (request * limit) limit)
             2 0 0 []
  = Some (Returned [JNum 1; JNum 2; JNum 3]).
Proof.
  split; [reflexivity|].
  refine (eq_trans
            (eq_sym (fetch_depends_on_cursor_positions_only
                       (truthful_server [JNum 1; JNum 2; JNum 3])
                       (fun request _ limit =>
                          truthful_server [JNum 1; JNum 2; JNum 3] 0
                                          (request * limit) limit)
                       2 2 _)) _).
  - intros k. reflexivity.
  - reflexivity.
Defined.

(** What the loop returns is what it started with, followed by the items
    of the pages it requested, in the order of the requests; [n] is the
    number of requests it made: with [n] units of fuel it returns, with
    one less it is still running. *)
Lemma fetch_loop_returns_pages (srv : server) (limit : nat) :
  forall (fuel request skip : nat) (messages result : list json),
    fetch_loop fuel srv limit request skip messages = Some (Returned result) ->
    exists n,
      1 <= n <= fuel /\
      fetch_loop n srv limit request skip messages = Some (Returned result) /\
      fetch_loop (n - 1) srv limit request skip messages = None /\
      result =
      messages ++
      List.concat
        (map (fun k => page_items (srv (request + k) (skip + k * limit) limit))
             (seq 0 n)).
Proof.
  induction fuel as [|fuel IH]; intros request skip messages result H;
    [discriminate|].
  assert (Hone : fetch_loop 1 srv limit request skip messages =
                 Some (Returned result) ->
                 result = messages ++ page_items (srv request skip limit) ->
                 exists n,
                   1 <= n <= S fuel /\
                   fetch_loop n srv limit request skip messages = Some (Returned result) /\
                   fetch_loop (n - 1) srv limit request skip messages = None /\
                   result =
                   messages ++
                   List.concat
                     (map (fun k => page_items (srv (request + k) (skip + k * limit) limit))
                          (seq 0 n))).
  { intros H1 E. exists 1. split; [lia|]. split; [exact H1|]. split; [reflexivity|].
    cbn [seq map List.concat Nat.mul]. rewrite !Nat.add_0_r, app_nil_r. exact E. }
  cbn [fetch_loop] in H.
  destruct (srv request skip limit) as [text|[data|]] eqn:Hsrv; try discriminate.
  destruct (dict_get data "items" (JList [])) as [items|] eqn:Hitems; [|discriminate].
  destruct (truthy items) eqn:Ht; cbn [negb] in H.
  - destruct (iterate items) as [new_items|] eqn:Hi; [|discriminate].
    assert (Hpage : page_items (Body (Some data)) = new_items).
    { unfold page_items. now rewrite Hitems, Ht, Hi. }
    destruct (dict_get data "total" (JNum 0)) as [total|] eqn:Htotal; [|discriminate].
    destruct (len_ge _ total) as [[|]|] eqn:Hge; try discriminate.
    + injection H as <-. apply Hone; [|now rewrite Hpage].
      cbn [fetch_loop]. rewrite Hsrv, Hitems, Ht, Hi, Htotal. cbn [negb].
      now rewrite Hge.
    + assert (Hstep : forall f,
                 fetch_loop (S f) srv limit request skip messages =
                 fetch_loop f srv limit (S request) (skip + limit)
                            (messages ++ new_items)).
      { intros f. cbn [fetch_loop]. rewrite Hsrv, Hitems, Ht, Hi, Htotal.
        cbn [negb]. now rewrite Hge. }
      apply IH in H. destruct H as (n & Hn & Hret & Hrun & ->).
      exists (S n). split; [lia|]. split; [now rewrite Hstep|]. split.
      * destruct n as [|m]; [lia|].
        replace (S (S m) - 1) with (S m) by lia. rewrite Hstep.
        now replace (S m - 1) with m in Hrun by lia.
      * cbn [seq map List.concat Nat.mul].
        rewrite !Nat.add_0_r, Hsrv, Hpage, <- app_assoc.
        do 2 f_equal. rewrite <- seq_shift, map_map. f_equal.
        apply map_ext. intros k. do 2 f_equal; lia.
  - injection H as <-. apply Hone.
    + cbn [fetch_loop]. now rewrite Hsrv, Hitems, Ht.
    + unfold page_items. now rewrite Hitems, Ht, app_nil_r.
Qed.

(** X2. Whatever the server sends, a list that the loop returns is the
    concatenation, in request order, of the items of all the pages it
    requested, at skip 0, [limit], [2 * limit] and so on: with [n] the
    number of requests the loop made (it returns with [n] units of fuel
    and is still running with [n - 1]), the result is made of the items of
    the requests 0 to [n - 1], none dropped, reordered or added. *)
Theorem fetch_returns_concatenation_of_requested_pages :
  forall (srv : server) (limit fuel : nat) (result : list json),
    fetch_loop fuel srv limit 0 0 [] = Some (Returned result) ->
    exists n,
      1 <= n <= fuel /\
      fetch_loop n srv limit 0 0 [] = Some (Returned result) /\
      fetch_loop (n - 1) srv limit 0 0 [] = None /\
      result =
      List.concat (map (fun k => page_items (srv k (k * limit) limit)) (seq 0 n)).
Proof.
  intros srv limit fuel result H.
  destruct (fetch_loop_returns_pages srv limit fuel 0 0 [] result H)
    as (n & Hn & Hret & Hrun & E).
  exists n. repeat split; try lia; assumption.
Qed.

Lemma fetch_returns_concatenation_witness :
  fetch_loop 9 fickle_server 1000 0 0 [] =
    Some (Returned [JNum 0; JNum 1; JNum 2; JNum 3]) /\
  exists n,
    1 <= n <= 9 /\
    fetch_loop n fickle_server 1000 0 0 [] =
      Some (Returned [JNum 0; JNum 1; JNum 2; JNum 3]) /\
    fetch_loop (n - 1) fickle_server 1000 0 0 [] = None /\
    [JNum 0; JNum 1; JNum 2; JNum 3] =
    List.concat (map (fun k => page_items (fickle_server k (k * 1000) 1000)) (seq 0 n)).
Proof.
  split; [reflexivity|].
  exact (fetch_returns_concatenation_of_requested_pages
           fickle_server 1000 9 [JNum 0; JNum 1; JNum 2; JNum 3] eq_refl).
Defined.

(** X3. The only [HTTPException] that leaves the loop has status 500 and a
    detail that starts with the fixed text. *)
Theorem fetch_http_exception_is_500 :
  forall (srv : server) (limit fuel request skip : nat) (messages : list json)
         (status : Z) (detail : string),
    fetch_loop fuel srv limit request skip messages =
      Some (Raised (HTTPException status detail)) ->
    status = 500%Z /\
    exists text, detail = ("Failed to fetch messages from API: " ++ text)%string.
Proof.
  intros srv limit fuel. induction fuel as [|fuel IH];
    intros request skip messages status detail H; [discriminate|].
  cbn [fetch_loop] in H.
  destruct (srv request skip limit) as [text|[data|]]; try discriminate.
  - injection H as <- <-. split; [reflexivity|]. now exists text.
  - destruct (dict_get data "items" (JList [])) as [items|]; [|discriminate].
    destruct (negb (truthy items)); [discriminate|].
    destruct (iterate items) as [new_items|]; [|discriminate].
    destruct (dict_get data "total" (JNum 0)) as [total|]; [|discriminate].
    destruct (len_ge _ total) as [[|]|]; try discriminate.
    now apply IH in H.
Qed.

Lemma fetch_http_exception_witness :
  fetch_loop 3 (failing_at 1 "timed out" fickle_server) 1000 0 0 [] =
    Some (Raised (HTTPException 500 "Failed to fetch messages from API: timed out")) /\
  500%Z = 500%Z /\
  exists text,
    "Failed to fetch messages from API: timed out" =
    ("Failed to fetch messages from API: " ++ text)%string.
Proof.
  split; [reflexivity|].
  exact (fetch_http_exception_is_500 (failing_at 1 "timed out" fickle_server)
           1000 3 0 0 [] 500%Z "Failed to fetch messages from API: timed out" eq_refl).
Defined.

(** A truthful server that fails at request [k], while pages are still
    due: the loop raises, whatever it has accumulated. *)
Lemma fetch_failing_from (text : string) (limit k : nat) :
  0 < limit ->
  forall (fuel request : nat) (acc rest : list json),
    request <= k ->
    k - request < fuel ->
    (k - request) * limit < List.length rest ->
    fetch_loop fuel (failing_at k text (truthful_server (acc ++ rest))) limit
               request (List.length acc) acc
    = Some (Raised (fetch_error text)).
Proof.
  intros Hl.
  induction fuel as [|fuel IH]; intros request acc rest Hk Hf Hrest; [lia|].
  destruct (Nat.eq_dec request k) as [->|Hne].
  - cbn [fetch_loop]. unfold failing_at. now rewrite Nat.eqb_refl.
  - assert (Hlim : limit < List.length rest) by nia.
    assert (Hsrv : failing_at k text (truthful_server (acc ++ rest)) request
                     (List.length acc) limit =
                   page (firstn limit rest) (Z.of_nat (List.length (acc ++ rest)))).
    { unfold failing_at. destruct (Nat.eqb_spec request k); [congruence|].
      unfold truthful_server. now rewrite skipn_length_app. }
    assert (Hlen : List.length (acc ++ firstn limit rest) = List.length acc + limit).
    { rewrite length_app, firstn_length_le; lia. }
    rewrite (fetch_loop_page _ _ _ _ _ _ _ _ Hsrv).
    2:{ destruct rest as [|x rest]; [simpl in Hlim; lia|].
        destruct limit; [lia | discriminate]. }
    destruct (Z.geb_spec (Z.of_nat (List.length (acc ++ firstn limit rest)))
                         (Z.of_nat (List.length (acc ++ rest)))) as [Hge|_].
    { rewrite Hlen, length_app in Hge. lia. }
    rewrite <- Hlen.
    replace (acc ++ rest)
      with ((acc ++ firstn limit rest) ++ skipn limit rest)
      by (now rewrite <- app_assoc, firstn_skipn).
    apply IH; [lia | lia |].
    rewrite length_skipn. nia.
Qed.

(** X4. A single failing page fails the whole fetch: when the request number
    [k] meets an [httpx] error while the corpus still has items beyond
    [k * 1000], nothing of the pages already received is returned and the
    cache is left as it was. *)
Theorem fetch_all_messages_fails_fast :
  forall (corpus : list json) (k fuel : nat) (text : string) (now_get now_set : Z)
         (cache : MessageCache.t json),
    MessageCache.get now_get cache = None ->
    k * 1000 < List.length corpus ->
    k < fuel ->
    fetch_all_messages fuel now_get now_set
      (failing_at k text (truthful_server corpus)) cache
    = Some (Raised (fetch_error text), cache).
Proof.
  intros corpus k fuel text now_get now_set cache Hmiss Hk Hf.
  unfold fetch_all_messages. rewrite Hmiss.
  assert (E : fetch_loop fuel (failing_at k text (truthful_server corpus))
                         1000 0 0 [] = Some (Raised (fetch_error text))).
  { apply (fetch_failing_from text 1000 k ltac:(lia) fuel 0 [] corpus);
      cbn [List.length]; lia. }
  now rewrite E.
Qed.

Lemma fetch_all_messages_fails_fast_witness :
  let corpus := repeat JNull 1001 in
  MessageCache.get 0 (@MessageCache.init json) = None /\
  1 * 1000 < List.length corpus /\
  1 < 2 /\
  fetch_all_messages 2 0 5 (failing_at 1 "connection reset" (truthful_server corpus))
                     MessageCache.init
  = Some (Raised (fetch_error "connection reset"), MessageCache.init).
Proof.
  intros corpus.
  assert (Hlen : 1 * 1000 < List.length corpus)
    by (unfold corpus; rewrite repeat_length; lia).
  split; [reflexivity|]. split; [exact Hlen|]. split; [lia|].
  apply (fetch_all_messages_fails_fast corpus 1 2 "connection reset" 0 5
           MessageCache.init eq_refl Hlen).
  lia.
Defined.

(** The loop against a server that slices correctly but reports an
    arbitrary total. *)
Lemma fetch_slicing_from (corpus : list json) (total limit : nat) :
  0 < limit ->
  forall (fuel request : nat),
    request <= Nat.max 1 (pages_for total limit) ->
    (request < Nat.max 1 (pages_for total limit)
     \/ List.length corpus <= request * limit) ->
    Nat.max 1 (pages_for total limit) - request < fuel ->
    fetch_loop fuel (slicing_server corpus total) limit request (request * limit)
               (firstn (request * limit) corpus)
    = Some (Returned (firstn (Nat.max 1 (pages_for total limit) * limit) corpus)).
Proof.
  intros Hl.
  assert (Hceil : total <= pages_for total limit * limit).
  { unfold pages_for.
    pose proof (Nat.div_mod_eq (total + limit - 1) limit).
    pose proof (Nat.mod_upper_bound (total + limit - 1) limit). nia. }
  assert (Hfloor : forall r, r < pages_for total limit -> r * limit < total).
  { unfold pages_for. intros r Hr.
    pose proof (Nat.div_mod_eq (total + limit - 1) limit).
    pose proof (Nat.mod_upper_bound (total + limit - 1) limit). nia. }
  remember (Nat.max 1 (pages_for total limit)) as K eqn:HK.
  induction fuel as [|fuel IH]; intros request Hle Hinv Hf; [lia|].
  assert (Hsrv : slicing_server corpus total request (request * limit) limit =
                 page (firstn limit (skipn (request * limit) corpus))
                      (Z.of_nat total)) by reflexivity.
  destruct (Nat.le_gt_cases (List.length corpus) (request * limit)) as [Hex|Hmore].
  - (* the corpus is exhausted: the page is empty *)
    rewrite skipn_all2 in Hsrv by exact Hex. rewrite firstn_nil in Hsrv.
    rewrite (fetch_loop_empty_page _ _ _ _ _ _ _ Hsrv).
    rewrite !firstn_all2; [reflexivity | | lia].
    destruct Hinv as [Hr|_]; nia.
  - destruct Hinv as [Hr|Hex]; [|lia].
    assert (Hne : firstn limit (skipn (request * limit) corpus) <> []).
    { intros E. apply (f_equal (@List.length json)) in E.
      rewrite length_firstn, length_skipn in E. simpl in E. lia. }
    rewrite (fetch_loop_page _ _ _ _ _ _ _ _ Hsrv Hne).
    rewrite <- firstn_add.
    replace (request * limit + limit) with (S request * limit) by lia.
    destruct (Z.geb_spec (Z.of_nat (List.length (firstn (S request * limit) corpus)))
                         (Z.of_nat total)) as [Hge|Hlt].
    + (* the reported total is reached *)
      rewrite length_firstn in Hge.
      destruct (Nat.eq_dec (S request) K) as [->|Hnk]; [reflexivity|].
      assert (S request < pages_for total limit) by lia.
      specialize (Hfloor (S request)). lia.
    + rewrite length_firstn in Hlt.
      apply IH; [lia | | lia].
      destruct (Nat.lt_ge_cases (S request) K) as [?|Hk]; [now left | right].
      assert (total <= S request * limit) by nia.
      lia.
Qed.

(** X5. The loop trusts the reported total: against a server that serves the
    slices of a corpus and reports [total] on every page, it returns the
    first [max 1 (ceil (total / limit))] pages of the corpus, cut short when
    the total is below the true size and complete when it is above. *)
Theorem fetch_returns_as_many_pages_as_the_total_asks :
  forall (corpus : list json) (total limit fuel : nat),
    0 < limit ->
    Nat.max 1 (pages_for total limit) < fuel ->
    fetch_loop fuel (slicing_server corpus total) limit 0 0 [] =
      Some (Returned (firstn (Nat.max 1 (pages_for total limit) * limit) corpus)) /\
    (List.length corpus <= total ->
     fetch_loop fuel (slicing_server corpus total) limit 0 0 [] =
       Some (Returned corpus)).
Proof.
  intros corpus total limit fuel Hl Hf.
  assert (E : fetch_loop fuel (slicing_server corpus total) limit 0 0 [] =
              Some (Returned (firstn (Nat.max 1 (pages_for total limit) * limit) corpus))).
  { apply (fetch_slicing_from corpus total limit Hl fuel 0); lia. }
  split; [exact E|].
  intros Hover. rewrite E. rewrite firstn_all2; [reflexivity|].
  unfold pages_for.
  pose proof (Nat.div_mod_eq (total + limit - 1) limit).
  pose proof (Nat.mod_upper_bound (total + limit - 1) limit). nia.
Qed.

Lemma fetch_returns_pages_for_total_witness :
  let corpus := [JNum 1; JNum 2; JNum 3; JNum 4; JNum 5; JNum 6; JNum 7] in
  0 < 2 /\
  Nat.max 1 (pages_for 3 2) < 3 /\
  fetch_loop 3 (slicing_server corpus 3) 2 0 0 [] =
    Some (Returned [JNum 1; JNum 2; JNum 3; JNum 4]) /\
  Nat.max 1 (pages_for 9 2) < 6 /\
  List.length corpus <= 9 /\
  fetch_loop 6 (slicing_server corpus 9) 2 0 0 [] = Some (Returned corpus).
Proof.
  intros corpus. split; [lia|]. split; [vm_compute; lia|]. split.
  - refine (proj1 (fetch_returns_as_many_pages_as_the_total_asks corpus 3 2 3 _ _)).
    + lia.
    + vm_compute. lia.
  - split; [vm_compute; lia|]. split; [vm_compute; lia|].
    refine (proj2 (fetch_returns_as_many_pages_as_the_total_asks corpus 9 2 6 _ _) _).
    + lia.
    + vm_compute. lia.
    + vm_compute. lia.
Defined.

(** ** The cache between two fetches *)

(** X6. A fetch that missed the cache and succeeded serves every later call
    made less than 300 seconds after it stored its result: the later call
    returns the same list, makes no request (it needs no fuel and does not
    depend on the server) and leaves the cache as it is.  This includes an
    empty list. *)
Theorem fetch_all_messages_serves_from_cache :
  forall (srv srv' : server) (fuel fuel' : nat) (now_get now_set later later' : Z)
         (cache cache' : MessageCache.t json) (result : list json),
    MessageCache.cache_duration_seconds cache = 300%Z ->
    MessageCache.get now_get cache = None ->
    fetch_all_messages fuel now_get now_set srv cache = Some (Returned result, cache') ->
    (later - now_set < TTL_us)%Z ->
    fetch_all_messages fuel' later later' srv' cache' = Some (Returned result, cache').
Proof.
  intros srv srv' fuel fuel' now_get now_set later later' cache cache' result
         Hd Hmiss Hfetch Hfresh.
  unfold fetch_all_messages in Hfetch. rewrite Hmiss in Hfetch.
  destruct (fetch_loop fuel srv 1000 0 0 []) as [[messages|e]|]; try discriminate.
  injection Hfetch as <- <-.
  unfold fetch_all_messages. rewrite get_after_set, Hd.
  apply Z.ltb_lt in Hfresh. unfold TTL_us in Hfresh. now rewrite Hfresh.
Qed.

Lemma fetch_all_messages_serves_from_cache_witness :
  MessageCache.cache_duration_seconds (@MessageCache.init json) = 300%Z /\
  MessageCache.get 0 (@MessageCache.init json) = None /\
  (299999999 - 7 < TTL_us)%Z /\
  fetch_all_messages 0 299999999 300000000 (fun _ _ _ => HTTPError "down")
                     (MessageCache.set 7 [] MessageCache.init)
  = Some (Returned [], MessageCache.set 7 [] MessageCache.init).
Proof.
  split; [reflexivity|]. split; [reflexivity|]. split; [reflexivity|].
  apply (fetch_all_messages_serves_from_cache
           (truthful_server []) (fun _ _ _ => HTTPError "down") 1 0 0 7
           299999999 300000000 MessageCache.init
           (MessageCache.set 7 [] MessageCache.init) []);
    reflexivity.
Defined.

(** X7. [get] never returns anything but the stored list, and only while its
    age is below the duration; a cache that answers at one clock reading
    answers the same at every earlier one, so an entry that has expired
    stays expired until the next [set]. *)
Theorem cache_get_is_sound_and_expiry_is_final :
  forall (A : Type) (cache : MessageCache.t A) (now earlier : Z) (stored : list A),
    MessageCache.get now cache = Some stored ->
    (earlier <= now)%Z ->
    MessageCache.messages cache = Some stored /\
    (exists updated,
        MessageCache.last_updated cache = Some updated /\
        (now - updated < MessageCache.cache_duration_seconds cache * 1000000)%Z) /\
    MessageCache.get earlier cache = Some stored.
Proof.
  intros A cache now earlier stored Hget Hle.
  unfold MessageCache.get, MessageCache.is_valid in *.
  destruct (MessageCache.messages cache) as [ms|]; [|discriminate].
  destruct (MessageCache.last_updated cache) as [updated|]; [|discriminate].
  destruct (Z.ltb_spec (now - updated)
                       (MessageCache.cache_duration_seconds cache * 1000000))
    as [Hlt|]; [|discriminate].
  split; [exact Hget|]. split; [now exists updated|].
  destruct (Z.ltb_spec (earlier - updated)
                       (MessageCache.cache_duration_seconds cache * 1000000));
    [exact Hget | lia].
Qed.

Lemma cache_get_is_sound_witness :
  MessageCache.get 100 (MessageCache.set 40 [1; 2] MessageCache.init) = Some [1; 2] /\
  (-5 <= 100)%Z /\
  MessageCache.get (-5) (MessageCache.set 40 [1; 2] MessageCache.init) = Some [1; 2].
Proof.
  split; [reflexivity|]. split; [lia|].
  refine (proj2 (proj2 (cache_get_is_sound_and_expiry_is_final
                          nat (MessageCache.set 40 [1; 2] MessageCache.init)
                          100 (-5) [1; 2] _ _))).
  - reflexivity.
  - lia.
Defined.

(** ** Messages split by user *)

Lemma messages_of_cons_other (ks : list string) (m : Message) (ms : list Message) :
  ~ In (user_name m) ks ->
  flat_map (fun k => messages_of k (m :: ms)) ks =
  flat_map (fun k => messages_of k ms) ks.
Proof.
  induction ks as [|k ks IH]; intros Hn; [reflexivity|].
  cbn [flat_map]. rewrite IH by (intros H; apply Hn; now right).
  f_equal. unfold messages_of. cbn [filter].
  destruct (String.eqb_spec (user_name m) k) as [E|_]; [|reflexivity].
  exfalso. apply Hn. now left.
Qed.

(** The groups of distinct names that cover the input are a rearrangement
    of the input. *)
Lemma messages_of_partition (ms : list Message) :
  forall ks : list string,
    NoDup ks ->
    (forall m, In m ms -> In (user_name m) ks) ->
    Permutation (flat_map (fun k => messages_of k ms) ks) ms.
Proof.
  induction ms as [|m ms IH]; intros ks Hnd Hcover.
  - induction ks as [|k ks IHk]; [constructor|].
    cbn [flat_map]. unfold messages_of at 1. cbn [filter app].
    apply IHk; [now inversion Hnd | intros m []].
  - assert (Hin : In (user_name m) ks) by (apply Hcover; now left).
    assert (Hrest : Permutation (flat_map (fun k => messages_of k ms) ks) ms).
    { apply IH; [exact Hnd|]. intros m' Hm'. apply Hcover. now right. }
    rewrite <- Hrest. clear IH Hcover Hrest.
    induction ks as [|k ks IHk]; [destruct Hin|].
    inversion Hnd as [|? ? Hk Hnd']; subst. cbn [flat_map].
    destruct (string_dec k (user_name m)) as [->|Hne].
    + rewrite messages_of_cons_other by exact Hk.
      unfold messages_of at 1. cbn [filter]. rewrite String.eqb_refl.
      reflexivity.
    + destruct Hin as [?|Hin]; [congruence|].
      unfold messages_of at 1. cbn [filter].
      destruct (String.eqb_spec (user_name m) k) as [?|_]; [congruence|].
      fold (messages_of k ms).
      rewrite (IHk Hnd' Hin). apply Permutation_sym, Permutation_middle.
Qed.

Lemma first_seen_covers (ms : list Message) :
  forall m, In m ms -> In (user_name m) (first_seen (map user_name ms)).
Proof. intros m Hm. apply first_seen_In. now apply in_map. Qed.

(** ** Statistics *)

Lemma count_user_lengths (name line : string) (d : user_dict) :
  Stats.count_user name (map (fun g => (fst g, List.length (snd g))) d) =
  map (fun g => (fst g, List.length (snd g))) (dict_append name line d).
Proof.
  induction d as [|[k lines] d IH]; [reflexivity|].
  cbn [map fst snd Stats.count_user dict_append].
  destruct (k =? name)%string; cbn [map fst snd].
  - rewrite length_app. reflexivity.
  - now rewrite IH.
Qed.

Lemma count_loop_lengths (ms : list Message) :
  forall d : user_dict,
    Stats.count_loop ms (map (fun g => (fst g, List.length (snd g))) d) =
    map (fun g => (fst g, List.length (snd g))) (group_loop ms d).
Proof.
  induction ms as [|m ms IH]; intros d; [reflexivity|].
  cbn [Stats.count_loop group_loop].
  now rewrite (count_user_lengths _ (render m)), IH.
Qed.

Lemma count_loop_spec (ms : list Message) :
  Stats.count_loop ms [] =
  map (fun name => (name, List.length (messages_of name ms)))
      (first_seen (map user_name ms)).
Proof.
  change (@nil (string * nat))
    with (map (fun g : string * list string => (fst g, List.length (snd g))) []).
  rewrite (count_loop_lengths ms []), group_loop_spec, map_map.
  apply map_ext. intros name. cbn [fst snd]. now rewrite length_map.
Qed.

Lemma list_sum_cons (a : nat) (l : list nat) :
  list_sum (a :: l) = a + list_sum l.
Proof. reflexivity. Qed.

Lemma length_flat_map_sum {A B : Type} (f : A -> list B) (l : list A) :
  List.length (flat_map f l) = list_sum (map (fun x => List.length (f x)) l).
Proof.
  induction l as [|x l IH]; [reflexivity|].
  cbn [flat_map map list_sum]. now rewrite length_app, IH.
Qed.

(** X8. [get_stats] lists every distinct user name once, in first-seen order,
    with the number of that user's messages, which is at least 1; the
    number of entries is [unique_users]. *)
Theorem get_stats_counts_each_user :
  forall messages : list Message,
    Stats.users (Stats.get_stats messages) =
      map (fun name => (name, List.length (messages_of name messages)))
          (first_seen (map user_name messages)) /\
    NoDup (map fst (Stats.users (Stats.get_stats messages))) /\
    (forall name,
        In name (map fst (Stats.users (Stats.get_stats messages))) <->
        In name (map user_name messages)) /\
    (forall name n,
        In (name, n) (Stats.users (Stats.get_stats messages)) -> 1 <= n) /\
    Stats.unique_users (Stats.get_stats messages) =
      List.length (first_seen (map user_name messages)).
Proof.
  intros messages. unfold Stats.get_stats. cbn [Stats.users Stats.unique_users].
  rewrite count_loop_spec.
  assert (Hkeys : map fst (map (fun name => (name, List.length (messages_of name messages)))
                               (first_seen (map user_name messages)))
                  = first_seen (map user_name messages)).
  { rewrite map_map. cbn [fst]. apply map_id. }
  split; [reflexivity|]. rewrite Hkeys.
  split; [apply first_seen_NoDup|].
  split; [intros name; apply first_seen_In|].
  split; [|now rewrite length_map].
  intros name n Hin. apply in_map_iff in Hin. destruct Hin as (k & [= <- <-] & Hk).
  apply first_seen_In, messages_of_present in Hk.
  destruct (messages_of k messages); [congruence | simpl; lia].
Qed.

(** X9. The counts of [get_stats] add up to [total_messages], and there are
    never more users than messages. *)
Theorem get_stats_counts_add_up :
  forall messages : list Message,
    list_sum (map snd (Stats.users (Stats.get_stats messages))) =
      Stats.total_messages (Stats.get_stats messages) /\
    Stats.total_messages (Stats.get_stats messages) = List.length messages /\
    Stats.unique_users (Stats.get_stats messages) <=
      Stats.total_messages (Stats.get_stats messages) /\
    (Stats.unique_users (Stats.get_stats messages) = 0 <-> messages = []).
Proof.
  intros messages. unfold Stats.get_stats.
  cbn [Stats.users Stats.unique_users Stats.total_messages].
  rewrite count_loop_spec, map_map. cbn [snd].
  assert (Hsum : list_sum (map (fun name => List.length (messages_of name messages))
                               (first_seen (map user_name messages)))
                 = List.length messages).
  { rewrite <- length_flat_map_sum. apply Permutation_length.
    apply messages_of_partition; [apply first_seen_NoDup | apply first_seen_covers]. }
  assert (Hle : List.length (first_seen (map user_name messages))
                <= List.length messages).
  { rewrite <- (length_map user_name messages).
    generalize (map user_name messages). intros l.
    induction l as [|a l IH]; simpl; [lia|].
    pose proof (filter_length_le (fun m => negb (m =? a)%string) (first_seen l)). lia. }
  split; [exact Hsum|]. split; [reflexivity|].
  rewrite length_map. split; [exact Hle|].
  split; intros H.
  - destruct messages as [|m ms]; [reflexivity|]. simpl in H. discriminate.
  - now subst.
Qed.

(** ** The context: shape, content and growth *)

Lemma spec_stop_at_Prefix (max_lines : Z) (parts : list part) :
  forall total, Prefix (spec_stop_at max_lines total parts) parts.
Proof.
  induction parts as [|[name|text] parts IH]; intros total; cbn [spec_stop_at].
  - now exists [].
  - destruct (IH total) as [rest E]. exists rest. cbn [app]. now rewrite <- E.
  - destruct (total + 1 >=? max_lines)%Z.
    + now exists parts.
    + destruct (IH (total + 1)%Z) as [rest E]. exists rest. cbn [app]. now rewrite <- E.
Qed.

Lemma spec_stop_at_mono (max_lines max_lines' : Z) (parts : list part) :
  (max_lines <= max_lines')%Z ->
  forall total,
    Prefix (spec_stop_at max_lines total parts) (spec_stop_at max_lines' total parts).
Proof.
  intros Hle. induction parts as [|[name|text] parts IH]; intros total;
    cbn [spec_stop_at].
  - now exists [].
  - destruct (IH total) as [rest E]. exists rest. cbn [app]. now rewrite <- E.
  - destruct (Z.geb_spec (total + 1) max_lines) as [H1|H1];
      destruct (Z.geb_spec (total + 1) max_lines') as [H2|H2].
    + now exists [].
    + now exists (spec_stop_at max_lines' (total + 1) parts).
    + lia.
    + destruct (IH (total + 1)%Z) as [rest E]. exists rest. cbn [app]. now rewrite <- E.
Qed.

Lemma Prefix_In {A : Type} (l1 l2 : list A) (x : A) :
  Prefix l1 l2 -> In x l1 -> In x l2.
Proof. intros [rest ->] H. apply in_or_app. now left. Qed.

Lemma line_texts_app (a b : list part) :
  line_texts (a ++ b) = line_texts a ++ line_texts b.
Proof.
  induction a as [|[name|text] a IH]; cbn [app line_texts]; [reflexivity|exact IH|].
  now rewrite IH.
Qed.

Lemma header_names_app (a b : list part) :
  header_names (a ++ b) = header_names a ++ header_names b.
Proof.
  induction a as [|[name|text] a IH]; cbn [app header_names]; [reflexivity| |exact IH].
  now rewrite IH.
Qed.

Lemma count_lines_length (parts : list part) :
  count_lines parts = Z.of_nat (List.length (line_texts parts)).
Proof.
  induction parts as [|[name|text] parts IH]; cbn [count_lines line_texts List.length];
    lia.
Qed.

Lemma line_texts_section (messages : list Message) (name : string) :
  line_texts (spec_section messages name) =
  map render (spec_cap (List.length messages) (messages_of name messages)).
Proof.
  unfold spec_section. cbn [line_texts].
  induction (spec_cap (List.length messages) (messages_of name messages)) as [|m l IH];
    [reflexivity|].
  cbn [map line_texts]. now rewrite IH.
Qed.

Lemma header_names_section (messages : list Message) (name : string) :
  header_names (spec_section messages name) = [name].
Proof.
  unfold spec_section. cbn [header_names].
  induction (spec_cap (List.length messages) (messages_of name messages)) as [|m l IH];
    [reflexivity|].
  cbn [map header_names]. exact IH.
Qed.

Lemma line_texts_sections (messages : list Message) (ks : list string) :
  line_texts (flat_map (spec_section messages) ks) =
  flat_map (fun k => map render
                       (spec_cap (List.length messages) (messages_of k messages)))
           ks.
Proof.
  induction ks as [|k ks IH]; [reflexivity|].
  cbn [flat_map]. now rewrite line_texts_app, line_texts_section, IH.
Qed.

Lemma header_names_sections (messages : list Message) (ks : list string) :
  header_names (flat_map (spec_section messages) ks) = ks.
Proof.
  induction ks as [|k ks IH]; [reflexivity|].
  cbn [flat_map]. now rewrite header_names_app, header_names_section, IH.
Qed.

Lemma spec_cap_length (n : nat) (group : list Message) :
  List.length (spec_cap n group) <= List.length group /\
  (200 <= n -> List.length (spec_cap n group) <= 50) /\
  (n < 200 -> spec_cap n group = group).
Proof.
  unfold spec_cap. destruct (Nat.ltb_spec n 200).
  - repeat split; try lia. 
  - rewrite length_firstn. repeat split; lia.
Qed.

Lemma sorted_names_facts (messages : list Message) :
  let names := sort_names (first_seen (map user_name messages)) in
  NoDup names /\
  (forall m, In m messages -> In (user_name m) names) /\
  (forall name, In name names -> In name (map user_name messages)) /\
  List.length names = List.length (first_seen (map user_name messages)).
Proof.
  cbn zeta.
  pose proof (sort_names_Permutation (first_seen (map user_name messages))) as P.
  split; [|split; [|split]].
  - apply (Permutation_NoDup (Permutation_sym P)), first_seen_NoDup.
  - intros m Hm. apply (Permutation_in _ (Permutation_sym P)).
    now apply first_seen_covers.
  - intros name Hn. apply (proj1 (first_seen_In _ _)).
    exact (Permutation_in _ P Hn).
  - now apply Permutation_length.
Qed.

(** The lines of all sections: never more than the input has messages, at
    most 50 per user for an input of 200 messages or more, and a
    rearrangement of all rendered messages for a smaller input. *)
Lemma spec_sections_lines (messages : list Message) :
  List.length (line_texts (spec_sections messages)) <= List.length messages /\
  (200 <= List.length messages ->
   List.length (line_texts (spec_sections messages))
   <= 50 * List.length (first_seen (map user_name messages))) /\
  (List.length messages < 200 ->
   Permutation (line_texts (spec_sections messages)) (map render messages)).
Proof.
  destruct (sorted_names_facts messages) as (Hnd & Hcover & _ & Hlen).
  unfold spec_sections. rewrite line_texts_sections.
  set (names := sort_names (first_seen (map user_name messages))) in *.
  pose proof (messages_of_partition messages names Hnd Hcover) as Hpart.
  clearbody names. split; [|split].
  - apply Nat.le_trans
      with (List.length (flat_map (fun k => messages_of k messages) names));
      [|now rewrite (Permutation_length Hpart)].
    rewrite !length_flat_map_sum.
    clear. induction names as [|k ks IH]; cbn [map]; [cbn; lia|].
    rewrite !list_sum_cons.
    rewrite length_map.
    destruct (spec_cap_length (List.length messages) (messages_of k messages))
      as (Hcap & Hcap50 & _).
    lia.
  - intros Hbig. rewrite <- Hlen, length_flat_map_sum.
    clear - Hbig. induction names as [|k ks IH];
      cbn [map List.length]; [cbn; lia|].
    rewrite list_sum_cons.
    rewrite length_map.
    destruct (spec_cap_length (List.length messages) (messages_of k messages))
      as (Hcap & Hcap50 & _).
    lia.
  - intros Hsmall.
    apply Permutation_trans
      with (map render (flat_map (fun k => messages_of k messages) names));
      [|now apply Permutation_map].
    clear - Hsmall. induction names as [|k ks IH]; cbn [flat_map]; [constructor|].
    rewrite map_app.
    rewrite (proj2 (proj2 (spec_cap_length _ (messages_of k messages))) Hsmall).
    now apply Permutation_app_head.
Qed.

Lemma headers_have_lines_stop (max_lines : Z) (lines : list string)
    (rest : list part) :
  (forall total, headers_have_lines (spec_stop_at max_lines total rest) = true) ->
  forall total,
    headers_have_lines (spec_stop_at max_lines total (map Line lines ++ rest)) = true.
Proof.
  intros Hrest. induction lines as [|l lines IH]; intros total; [apply Hrest|].
  cbn [map app spec_stop_at].
  destruct (total + 1 >=? max_lines)%Z; [reflexivity|].
  cbn [headers_have_lines]. apply IH.
Qed.

Lemma headers_have_lines_sections (max_lines : Z) (messages : list Message) :
  forall ks : list string,
    (forall k, In k ks -> In k (map user_name messages)) ->
    forall total,
      headers_have_lines
        (spec_stop_at max_lines total (flat_map (spec_section messages) ks)) = true.
Proof.
  induction ks as [|k ks IH]; intros Hks total; [reflexivity|].
  cbn [flat_map]. unfold spec_section at 1.
  assert (Hne : spec_cap (List.length messages) (messages_of k messages) <> []).
  { apply spec_cap_nonempty, messages_of_present, Hks. now left. }
  destruct (spec_cap (List.length messages) (messages_of k messages)) as [|m l];
    [congruence|].
  assert (Htail : forall t,
             headers_have_lines
               (spec_stop_at max_lines t
                  (map Line (map render l) ++ flat_map (spec_section messages) ks))
             = true).
  { apply headers_have_lines_stop. apply IH. intros k' Hk'. apply Hks. now right. }
  rewrite map_map in Htail.
  cbn [map app spec_stop_at].
  destruct (total + 1 >=? max_lines)%Z; [reflexivity|].
  cbn [headers_have_lines]. apply Htail.
Qed.

Lemma headers_at_most_lines (parts : list part) :
  headers_have_lines parts = true ->
  List.length (header_names parts) <= List.length (line_texts parts) /\
  match parts with
  | Line _ :: _ => List.length (header_names parts) < List.length (line_texts parts)
  | _ => True
  end.
Proof.
  induction parts as [|[name|text] parts IH]; intros H.
  - cbn. split; [lia | exact I].
  - cbn [headers_have_lines] in H.
    destruct parts as [|[name'|text'] parts]; try discriminate.
    destruct (IH H) as [_ Hlt]. cbn [header_names line_texts List.length] in *.
    split; [lia | exact I].
  - cbn [headers_have_lines] in H. destruct (IH H) as [Hle _].
    cbn [header_names line_texts List.length]. split; lia.
Qed.

Lemma spec_cap_In (n : nat) (group : list Message) (m : Message) :
  In m (spec_cap n group) -> In m group.
Proof.
  unfold spec_cap. destruct (n <? 200)%nat; [auto|].
  intros H. rewrite <- (firstn_skipn 50 group). apply in_or_app. now left.
Qed.

Lemma spec_sections_In (messages : list Message) (p : part) :
  In p (spec_sections messages) ->
  match p with
  | Header name => In name (map user_name messages)
  | Line text =>
      exists msg, In msg messages /\ text = render msg
  end.
Proof.
  unfold spec_sections. intros H. apply in_flat_map in H.
  destruct H as (k & Hk & Hp).
  apply (proj1 (proj2 (proj2 (sorted_names_facts messages)))) in Hk.
  unfold spec_section in Hp. destruct Hp as [<-|Hp]; [exact Hk|].
  apply in_map_iff in Hp. destruct Hp as (msg & <- & Hmsg).
  exists msg. split; [|reflexivity].
  apply spec_cap_In in Hmsg. unfold messages_of in Hmsg.
  now apply filter_In in Hmsg.
Qed.

Lemma Prefix_line_texts (a b : list part) :
  Prefix a b -> List.length (line_texts a) <= List.length (line_texts b).
Proof. intros [rest ->]. rewrite line_texts_app, length_app. lia. Qed.

(** X10. The context is empty for an empty input and for no other: a
    non-empty input always yields at least its first header, whatever the
    maximum is. *)
Theorem context_is_empty_only_for_empty_input :
  forall (messages : list Message) (max_messages : Z),
    (create_context_parts messages max_messages = [] <-> messages = []) /\
    create_context_from_messages [] max_messages = "".
Proof.
  intros messages max_messages. split; [|reflexivity]. split.
  - intros H. destruct messages as [|m ms]; [reflexivity|]. exfalso.
    rewrite create_context_parts_spec in H. unfold spec_sections in H.
    pose proof (sort_names_Permutation (first_seen (map user_name (m :: ms)))) as P.
    destruct (sort_names (first_seen (map user_name (m :: ms)))) as [|k ks].
    + apply Permutation_length in P. simpl in P. discriminate.
    + cbn [flat_map] in H. unfold spec_section at 1 in H.
      cbn [app spec_stop_at] in H. discriminate.
  - intros ->. reflexivity.
Qed.

(** X11. In the parts of a context every header is directly followed by a
    message line, also where the maximum cuts the output, so there are
    never more headers than lines. *)
Theorem context_headers_are_followed_by_lines :
  forall (messages : list Message) (max_messages : Z),
    headers_have_lines (create_context_parts messages max_messages) = true /\
    List.length (header_names (create_context_parts messages max_messages))
    <= List.length (line_texts (create_context_parts messages max_messages)).
Proof.
  intros messages max_messages.
  assert (H : headers_have_lines (create_context_parts messages max_messages) = true).
  { rewrite create_context_parts_spec. unfold spec_sections.
    apply headers_have_lines_sections.
    apply (proj1 (proj2 (proj2 (sorted_names_facts messages)))). }
  split; [exact H|]. now apply headers_at_most_lines.
Qed.

(** X12. Nothing in a context is invented: every header is the user name of
    some input message and every line is the rendering of some input
    message. *)
Theorem context_parts_come_from_input :
  forall (messages : list Message) (max_messages : Z) (p : part),
    In p (create_context_parts messages max_messages) ->
    match p with
    | Header name => In name (map user_name messages)
    | Line text => exists msg, In msg messages /\ text = render msg
    end.
Proof.
  intros messages max_messages p H.
  rewrite create_context_parts_spec in H.
  apply spec_sections_In.
  exact (Prefix_In _ _ _ (spec_stop_at_Prefix _ _ _) H).
Qed.

Lemma context_parts_come_from_input_witness :
  let m := mkMessage "1" "u1" "Layla Hassan" "Book a table" "2025-01-02T09:30:00Z" in
  In (Line "[2025-01-02] Book a table") (create_context_parts [m] 500) /\
  exists msg, In msg [m] /\ "[2025-01-02] Book a table" = render msg.
Proof.
  intros m.
  assert (H : In (Line "[2025-01-02] Book a table") (create_context_parts [m] 500))
    by (right; left; reflexivity).
  split; [exact H|].
  exact (context_parts_come_from_input [m] 500 (Line "[2025-01-02] Book a table") H).
Defined.

(** X13. Raising the maximum only adds to the end: the parts for a smaller
    maximum are an initial segment of the parts for a larger one. *)
Theorem context_grows_with_the_maximum :
  forall (messages : list Message) (max_messages max_messages' : Z),
    (max_messages <= max_messages')%Z ->
    Prefix (create_context_parts messages max_messages)
           (create_context_parts messages max_messages').
Proof.
  intros messages max_messages max_messages' Hle.
  rewrite !create_context_parts_spec. now apply spec_stop_at_mono.
Qed.

Lemma context_grows_witness :
  let a := mkMessage "1" "u1" "Vikram Desai" "Rent a car" "2025-01-03T10:00:00Z" in
  let b := mkMessage "2" "u2" "Layla Hassan" "Book a table" "2025-01-02T09:30:00Z" in
  (1 <= 2)%Z /\
  Prefix (create_context_parts [a; b; a] 1) (create_context_parts [a; b; a] 2).
Proof.
  intros a b. split; [lia|].
  apply (context_grows_with_the_maximum [a; b; a] 1 2). lia.
Defined.

(** X14. An input of fewer than 200 messages and fewer messages than the
    maximum is rendered completely: the lines are a rearrangement of the
    rendered input messages and the headers are the distinct user names in
    ascending order.  With the default maximum of 500 this holds for every
    input of fewer than 200 messages. *)
Theorem small_corpus_is_rendered_completely :
  forall (messages : list Message) (max_messages : Z),
    List.length messages < 200 ->
    (Z.of_nat (List.length messages) < max_messages)%Z ->
    Permutation (line_texts (create_context_parts messages max_messages))
                (map render messages) /\
    header_names (create_context_parts messages max_messages) =
      sort_names (first_seen (map user_name messages)) /\
    count_lines (create_context_parts messages max_messages) =
      Z.of_nat (List.length messages).
Proof.
  intros messages max_messages Hsmall Hmax.
  destruct (spec_sections_lines messages) as (Hle & _ & Hperm).
  specialize (Hperm Hsmall).
  rewrite create_context_parts_uncut by (rewrite count_lines_length; lia).
  split; [exact Hperm|]. split.
  - apply header_names_sections.
  - rewrite count_lines_length. f_equal.
    rewrite (Permutation_length Hperm). apply length_map.
Qed.

Lemma small_corpus_witness :
  let a := mkMessage "1" "u1" "Vikram Desai" "Rent a car" "2025-01-03T10:00:00Z" in
  let b := mkMessage "2" "u2" "Layla Hassan" "Book a table" "2025-01-02T09:30:00Z" in
  List.length [a; b; a] < 200 /\
  (Z.of_nat (List.length [a; b; a]) < 500)%Z /\
  Permutation (line_texts (create_context_parts [a; b; a] 500))
              (map render [a; b; a]).
Proof.
  intros a b. split; [simpl; lia|]. split; [simpl; lia|].
  refine (proj1 (small_corpus_is_rendered_completely [a; b; a] 500 _ _)).
  - simpl. lia.
  - simpl. lia.
Defined.

Lemma lines_of_user_lines (name : string) (current : option string)
    (lines : list string) (rest : list part) :
  lines_of_user name current (map Line lines ++ rest) =
  (match current with
   | Some n => if (n =? name)%string then lines else []
   | None => []
   end) ++ lines_of_user name current rest.
Proof.
  induction lines as [|l lines IH]; cbn [map app lines_of_user].
  - now destruct current as [n|]; [destruct (n =? name)%string|].
  - rewrite IH. destruct current as [n|]; [|reflexivity].
    now destruct (n =? name)%string.
Qed.

(** In the sections of distinct names, the lines under the header of a
    name are the rendered messages of its section. *)
Lemma lines_of_user_sections (messages : list Message) (name : string) :
  forall (ks : list string) (current : option string),
    NoDup ks ->
    lines_of_user name current (flat_map (spec_section messages) ks) =
    if in_dec string_dec name ks
    then map render (spec_cap (List.length messages) (messages_of name messages))
    else [].
Proof.
  induction ks as [|k ks IH]; intros current Hnd; [reflexivity|].
  inversion Hnd as [|? ? Hk Hnd']; subst.
  cbn [flat_map]. unfold spec_section at 1. cbn [app lines_of_user].
  rewrite <- (map_map render Line), lines_of_user_lines, (IH (Some k) Hnd').
  destruct (String.eqb_spec k name) as [->|Hne].
  - destruct (in_dec string_dec name (name :: ks)) as [_|Hn];
      [|exfalso; apply Hn; now left].
    destruct (in_dec string_dec name ks); [tauto | apply app_nil_r].
  - destruct (in_dec string_dec name ks) as [Hin|Hnin];
      destruct (in_dec string_dec name (k :: ks)) as [Hin'|Hnin'];
      try reflexivity.
    + exfalso. apply Hnin'. now right.
    + destruct Hin' as [?|?]; [congruence | tauto].
Qed.

Lemma lines_of_user_Prefix (name : string) (a b : list part) :
  Prefix a b ->
  forall current,
    Prefix (lines_of_user name current a) (lines_of_user name current b).
Proof.
  intros [rest ->]. induction a as [|[n|text] a IH]; intros current;
    cbn [app lines_of_user].
  - now exists (lines_of_user name current rest).
  - apply IH.
  - destruct current as [n|]; [|apply IH].
    destruct (n =? name)%string; [|apply IH].
    destruct (IH (Some n)) as [tail E]. exists tail. cbn [app]. now rewrite <- E.
Qed.

Lemma Prefix_length {A : Type} (l1 l2 : list A) :
  Prefix l1 l2 -> List.length l1 <= List.length l2.
Proof. intros [rest ->]. rewrite length_app. lia. Qed.

(** X15. For an input of 200 messages or more, the lines that stand under
    the header of any one user are an initial segment of the renderings of
    that user's first 50 messages, so no user has more than 50 lines; in
    total the context has at most 50 lines per distinct user name and
    never more lines than the input has messages. *)
Theorem large_corpus_is_capped_per_user :
  forall (messages : list Message) (max_messages : Z) (name : string),
    200 <= List.length messages ->
    Prefix (lines_of_user name None (create_context_parts messages max_messages))
           (map render (firstn 50 (messages_of name messages))) /\
    List.length (lines_of_user name None (create_context_parts messages max_messages))
      <= 50 /\
    List.length (line_texts (create_context_parts messages max_messages))
      <= 50 * List.length (first_seen (map user_name messages)) /\
    List.length (line_texts (create_context_parts messages max_messages))
      <= List.length messages.
Proof.
  intros messages max_messages name Hbig.
  destruct (spec_sections_lines messages) as (Hle & Hcap & _).
  specialize (Hcap Hbig).
  rewrite create_context_parts_spec.
  pose proof (Prefix_line_texts _ _
                (spec_stop_at_Prefix max_messages (spec_sections messages) 0)) as Hp.
  assert (Huser : Prefix
                    (lines_of_user name None
                       (spec_stop_at max_messages 0 (spec_sections messages)))
                    (map render (firstn 50 (messages_of name messages)))).
  { pose proof (lines_of_user_Prefix name _ _
                  (spec_stop_at_Prefix max_messages (spec_sections messages) 0) None)
      as [tail E].
    unfold spec_sections in E at 1.
    rewrite lines_of_user_sections in E
      by apply (proj1 (sorted_names_facts messages)).
    unfold spec_cap in E.
    destruct (Nat.ltb_spec (List.length messages) 200) as [?|_]; [lia|].
    destruct (in_dec string_dec name
                (sort_names (first_seen (map user_name messages)))).
    - exists tail. exact E.
    - symmetry in E. apply app_eq_nil in E. destruct E as [-> _].
      now exists (map render (firstn 50 (messages_of name messages))). }
  split; [exact Huser|]. split; [|split; lia].
  apply Prefix_length in Huser. rewrite length_map, length_firstn in Huser. lia.
Qed.

Lemma large_corpus_witness :
  let a := mkMessage "1" "u1" "Vikram Desai" "Rent a car" "2025-01-03T10:00:00Z" in
  let b := mkMessage "2" "u2" "Layla Hassan" "Book a table" "2025-01-02T09:30:00Z" in
  let corpus := repeat a 150 ++ repeat b 60 in
  200 <= List.length corpus /\
  List.length (lines_of_user "Vikram Desai" None (create_context_parts corpus 500)) <= 50 /\
  List.length (lines_of_user "Vikram Desai" None (create_context_parts corpus 500)) = 50 /\
  List.length (line_texts (create_context_parts corpus 500)) = 100.
Proof.
  intros a b corpus.
  assert (H : 200 <= List.length corpus)
    by (unfold corpus; rewrite length_app, !repeat_length; lia).
  split; [exact H|]. split.
  - exact (proj1 (proj2 (large_corpus_is_capped_per_user corpus 500 "Vikram Desai" H))).
  - split; vm_compute; reflexivity.
Defined.

(** X16. When nothing is cut, the users that get a section are the users that
    [get_stats] lists, in ascending order. *)
Theorem context_sections_are_the_users_of_get_stats :
  forall (messages : list Message) (max_messages : Z),
    (Z.of_nat (List.length messages) < max_messages)%Z ->
    header_names (create_context_parts messages max_messages) =
    sort_names (map fst (Stats.users (Stats.get_stats messages))).
Proof.
  intros messages max_messages Hmax.
  destruct (spec_sections_lines messages) as (Hle & _ & _).
  rewrite create_context_parts_uncut by (rewrite count_lines_length; lia).
  unfold spec_sections. rewrite header_names_sections.
  unfold Stats.get_stats. cbn [Stats.users].
  rewrite count_loop_spec, map_map. cbn [fst]. now rewrite map_id.
Qed.

Lemma context_sections_witness :
  let a := mkMessage "1" "u1" "Vikram Desai" "Rent a car" "2025-01-03T10:00:00Z" in
  let b := mkMessage "2" "u2" "Layla Hassan" "Book a table" "2025-01-02T09:30:00Z" in
  (Z.of_nat (List.length [a; b; a]) < 500)%Z /\
  header_names (create_context_parts [a; b; a] 500) = ["Layla Hassan"; "Vikram Desai"] /\
  Stats.users (Stats.get_stats [a; b; a]) = [("Vikram Desai", 2); ("Layla Hassan", 1)].
Proof.
  intros a b. split; [simpl; lia|]. split; [|reflexivity].
  refine (eq_trans (context_sections_are_the_users_of_get_stats [a; b; a] 500 _) _).
  - simpl. lia.
  - reflexivity.
Defined.

(** ** The filter and the extractor as operations *)

Lemma filter_messages_by_user_filter (messages : list Message) (q : string)
    (qs : list string) :
  filter_messages_by_user messages (q :: qs) =
  filter (name_matches (q :: qs)) messages.
Proof. unfold filter_messages_by_user. now rewrite filter_loop_spec. Qed.

Lemma filter_twice {A : Type} (f : A -> bool) (l : list A) :
  filter f (filter f l) = filter f l.
Proof.
  induction l as [|x l IH]; [reflexivity|]. cbn [filter].
  destruct (f x) eqn:Hx; [|exact IH]. cbn [filter]. now rewrite Hx, IH.
Qed.

Lemma filter_all {A : Type} (f : A -> bool) (l : list A) :
  (forall x, In x l -> f x = true) -> filter f l = l.
Proof.
  induction l as [|x l IH]; intros H; [reflexivity|]. cbn [filter].
  rewrite (H x (or_introl eq_refl)), IH; [reflexivity|].
  intros y Hy. apply H. now right.
Qed.

Lemma filter_Subsequence_weaker {A : Type} (f g : A -> bool) (l : list A) :
  (forall x, f x = true -> g x = true) ->
  Subsequence (filter f l) (filter g l).
Proof.
  intros Hfg. induction l as [|x l IH]; [constructor|]. cbn [filter].
  destruct (f x) eqn:Hf.
  - rewrite (Hfg x Hf). now constructor.
  - destruct (g x); [now constructor | exact IH].
Qed.

(** X18. Filtering a filtered list again with the same names changes nothing. *)
Theorem filter_is_idempotent :
  forall (messages : list Message) (user_names : list string),
    filter_messages_by_user (filter_messages_by_user messages user_names) user_names
    = filter_messages_by_user messages user_names.
Proof.
  intros messages [|q qs]; [reflexivity|].
  rewrite !filter_messages_by_user_filter. apply filter_twice.
Qed.

(** X19. With at least one name already queried, querying more names never
    loses a message: the old result is a subsequence of the new one.  (From
    no name to one name the result shrinks, since no name means no
    filtering.) *)
Theorem filter_keeps_more_with_more_names :
  forall (messages : list Message) (user_names more : list string),
    user_names <> [] ->
    Subsequence (filter_messages_by_user messages user_names)
                (filter_messages_by_user messages (user_names ++ more)) /\
    Subsequence (filter_messages_by_user messages user_names)
                (filter_messages_by_user messages []).
Proof.
  intros messages [|q qs] more Hne; [congruence|]. split.
  - change ((q :: qs) ++ more) with (q :: (qs ++ more)).
    rewrite !filter_messages_by_user_filter.
    apply filter_Subsequence_weaker. intros m Hm.
    change (q :: qs ++ more) with ((q :: qs) ++ more).
    unfold name_matches in *. rewrite existsb_app, Hm. reflexivity.
  - rewrite filter_messages_by_user_filter. apply filter_Subsequence.
Qed.

Lemma filter_keeps_more_witness :
  let a := mkMessage "1" "u1" "Vikram Desai" "Rent a car" "2025-01-03T10:00:00Z" in
  let b := mkMessage "2" "u2" "Layla Hassan" "Book a table" "2025-01-02T09:30:00Z" in
  ["Layla"] <> [] /\
  Subsequence (filter_messages_by_user [a; b] ["Layla"])
              (filter_messages_by_user [a; b] (["Layla"] ++ ["Vikram"])).
Proof.
  intros a b. split; [discriminate|].
  refine (proj1 (filter_keeps_more_with_more_names [a; b] ["Layla"] ["Vikram"] _)).
  discriminate.
Defined.

(** X20. An empty string among the queried names matches every user name, so
    the filter then returns its whole input. *)
Theorem filter_with_empty_name_keeps_everything :
  forall (messages : list Message) (user_names : list string),
    In "" user_names ->
    filter_messages_by_user messages user_names = messages.
Proof.
  intros messages [|q qs] Hin; [reflexivity|].
  rewrite filter_messages_by_user_filter. apply filter_all.
  intros m _. unfold name_matches. apply existsb_exists.
  exists "". split; [exact Hin|]. cbn [lower contains].
  now destruct (lower (user_name m)).
Qed.

Lemma filter_with_empty_name_witness :
  let a := mkMessage "1" "u1" "Vikram Desai" "Rent a car" "2025-01-03T10:00:00Z" in
  In "" ["Layla"; ""] /\
  filter_messages_by_user [a] ["Layla"; ""] = [a].
Proof.
  intros a. split; [right; left; reflexivity|].
  apply (filter_with_empty_name_keeps_everything [a] ["Layla"; ""]).
  right; left; reflexivity.
Defined.

(** X21. The filter reads the queried names through [lower] only: two name
    lists that agree after lowercasing select the same messages. *)
Theorem filter_ignores_case_of_names :
  forall (messages : list Message) (user_names user_names' : list string),
    map lower user_names = map lower user_names' ->
    filter_messages_by_user messages user_names =
    filter_messages_by_user messages user_names'.
Proof.
  intros messages user_names user_names' Hlow.
  assert (Hm : forall ns m,
             name_matches ns m =
             existsb (fun q => contains q (lower (user_name m))) (map lower ns)).
  { intros ns m. unfold name_matches.
    induction ns as [|n ns IH]; [reflexivity|]. cbn [map existsb]. now rewrite IH. }
  destruct user_names as [|q qs], user_names' as [|q' qs']; try discriminate;
    [reflexivity|].
  rewrite !filter_messages_by_user_filter.
  apply filter_ext. intros m. now rewrite !Hm, Hlow.
Qed.

Lemma filter_ignores_case_witness :
  let b := mkMessage "2" "u2" "Layla Hassan" "Book a table" "2025-01-02T09:30:00Z" in
  map lower ["LAYLA"] = map lower ["layla"] /\
  filter_messages_by_user [b] ["LAYLA"] = filter_messages_by_user [b] ["layla"].
Proof.
  intros b. split; [reflexivity|].
  now apply (filter_ignores_case_of_names [b] ["LAYLA"] ["layla"]).
Defined.

Lemma lower_append (a b : string) :
  lower (a ++ b) = (lower a ++ lower b)%string.
Proof. induction a as [|c a IH]; [reflexivity|]. cbn. now rewrite IH. Qed.

Lemma string_append_assoc (a b c : string) :
  ((a ++ b) ++ c)%string = (a ++ (b ++ c))%string.
Proof. induction a as [|x a IH]; [reflexivity|]. cbn. now rewrite IH. Qed.

Lemma Substring_lower (a b : string) :
  Substring a b -> Substring (lower a) (lower b).
Proof.
  intros (pre & post & ->). exists (lower pre), (lower post).
  now rewrite !lower_append.
Qed.

Lemma Substring_trans (a b c : string) :
  Substring a b -> Substring b c -> Substring a c.
Proof.
  intros (pre & post & ->) (pre' & post' & ->).
  exists (pre' ++ pre)%string, (post ++ post')%string.
  now rewrite !string_append_assoc.
Qed.

Lemma known_users_NoDup : NoDup known_users.
Proof.
  unfold known_users.
  repeat (constructor; [cbn [In]; intuition discriminate|]). constructor.
Qed.

(** X22. The extractor returns known names only, each at most once and in the
    order of the name list, so never more than 11 names. *)
Theorem extractor_returns_distinct_known_names :
  forall question : string,
    Subsequence (extract_user_names question) known_users /\
    NoDup (extract_user_names question) /\
    List.length (extract_user_names question) <= 11.
Proof.
  intros question. unfold extract_user_names. rewrite extract_from_filter.
  split; [apply filter_Subsequence|].
  split; [apply NoDup_filter, known_users_NoDup|].
  apply (filter_length_le _ known_users).
Qed.

(** X23. Text added around a question never removes a name: every name
    extracted from a question is extracted from any question that contains
    it. *)
Theorem extractor_is_monotone_in_the_question :
  forall (question question' : string) (name : string),
    Substring question question' ->
    In name (extract_user_names question) ->
    In name (extract_user_names question').
Proof.
  intros question question' name Hsub Hin.
  unfold extract_user_names in *. rewrite extract_from_filter in *.
  apply filter_In in Hin. destruct Hin as [Hk Hc]. apply filter_In.
  split; [exact Hk|].
  apply contains_iff_Substring. apply contains_iff_Substring in Hc.
  apply (Substring_trans _ _ _ Hc). now apply Substring_lower.
Qed.

Lemma extractor_is_monotone_witness :
  Substring "Layla" "Did Layla call?" /\
  In "Layla" (extract_user_names "Layla") /\
  In "Layla" (extract_user_names "Did Layla call?").
Proof.
  assert (Hs : Substring "Layla" "Did Layla call?") by (now exists "Did ", " call?").
  assert (Hi : In "Layla" (extract_user_names "Layla")) by (left; reflexivity).
  split; [exact Hs|]. split; [exact Hi|].
  exact (extractor_is_monotone_in_the_question "Layla" "Did Layla call?" "Layla" Hs Hi).
Defined.

(** ** The working set of the orchestrator *)

Lemma select_messages_cases (question : string) (messages : list Message) :
  (extract_user_names question = [] /\
   select_messages question messages = (messages, None)) \/
  (extract_user_names question <> [] /\
   filter_messages_by_user messages (extract_user_names question) = [] /\
   select_messages question messages =
     (messages, Some (NoMessagesFound (extract_user_names question)))) \/
  (extract_user_names question <> [] /\
   filter_messages_by_user messages (extract_user_names question) <> [] /\
   select_messages question messages =
     (filter_messages_by_user messages (extract_user_names question),
      Some (FilteredTo
              (List.length (filter_messages_by_user messages
                                                    (extract_user_names question)))
              (extract_user_names question)))).
Proof.
  unfold select_messages.
  destruct (extract_user_names question) as [|n ns]; [left; now split|]. right.
  destruct (filter_messages_by_user messages (n :: ns)) as [|m ms].
  - left. repeat split. discriminate.
  - right. repeat split; discriminate.
Qed.

(** X24. The working set is always a subsequence of the corpus, and it is
    empty only when the corpus is: a question never leaves the model
    without messages when there are some. *)
Theorem working_set_is_part_of_corpus_and_never_emptied :
  forall (question : string) (messages : list Message),
    Subsequence (fst (select_messages question messages)) messages /\
    (fst (select_messages question messages) = [] <-> messages = []).
Proof.
  intros question messages.
  destruct (select_messages_cases question messages)
    as [[Hn ->] | [(Hn & Hf & ->) | (Hn & Hf & ->)]]; cbn [fst].
  - split; [apply Subsequence_refl | tauto].
  - split; [apply Subsequence_refl | tauto].
  - split.
    + destruct (extract_user_names question) as [|n ns]; [congruence|].
      rewrite filter_messages_by_user_filter. apply filter_Subsequence.
    + split; [tauto|]. intros ->. exfalso. apply Hf.
      now destruct (extract_user_names question).
Qed.

(** X25. When the question names known users and some message matches, the
    context holds the matching users only: every header contains one of
    the extracted names, case-insensitively, and every line renders a
    message of the corpus that matches. *)
Theorem context_of_a_hit_holds_matching_users_only :
  forall (question : string) (messages : list Message) (max_messages : Z) (p : part),
    extract_user_names question <> [] ->
    filter_messages_by_user messages (extract_user_names question) <> [] ->
    In p (create_context_parts (fst (select_messages question messages)) max_messages) ->
    match p with
    | Header name =>
        exists known,
          In known (extract_user_names question) /\
          Substring (lower known) (lower name)
    | Line text =>
        exists msg,
          In msg messages /\
          name_matches (extract_user_names question) msg = true /\
          text = render msg
    end.
Proof.
  intros question messages max_messages p Hn Hf Hp.
  destruct (select_messages_cases question messages)
    as [[Hn' _] | [(_ & Hf' & _) | (_ & _ & E)]]; try congruence.
  rewrite E in Hp. cbn [fst] in Hp. clear E.
  rewrite create_context_parts_spec in Hp.
  apply (Prefix_In _ _ _ (spec_stop_at_Prefix _ _ _)) in Hp.
  apply spec_sections_In in Hp.
  destruct (extract_user_names question) as [|n ns]; [congruence|].
  rewrite filter_messages_by_user_filter in Hp.
  destruct p as [name|text].
  - apply in_map_iff in Hp. destruct Hp as (m & <- & Hm).
    apply filter_In in Hm. destruct Hm as [_ Hm].
    now apply name_matches_iff.
  - destruct Hp as (msg & Hmsg & ->). apply filter_In in Hmsg.
    destruct Hmsg as [Hin Hm]. now exists msg.
Qed.

Lemma context_of_a_hit_witness :
  let a := mkMessage "1" "u1" "Vikram Desai" "Rent a car" "2025-01-03T10:00:00Z" in
  let b := mkMessage "2" "u2" "Layla Hassan" "Book a table" "2025-01-02T09:30:00Z" in
  extract_user_names "What did Layla book?" <> [] /\
  filter_messages_by_user [a; b] (extract_user_names "What did Layla book?") <> [] /\
  create_context_parts (fst (select_messages "What did Layla book?" [a; b])) 500
    = [Header "Layla Hassan"; Line "[2025-01-02] Book a table"] /\
  exists known,
    In known (extract_user_names "What did Layla book?") /\
    Substring (lower known) (lower "Layla Hassan").
Proof.
  intros a b.
  split; [discriminate|]. split; [discriminate|]. split; [reflexivity|].
  refine (context_of_a_hit_holds_matching_users_only
            "What did Layla book?" [a; b] 500 (Header "Layla Hassan") _ _ _).
  - discriminate.
  - discriminate.
  - left. reflexivity.
Defined.

(** ** The answer *)




Lemma context_lines_within_positive_maximum_witness :
  let a := mkMessage "1" "u1" "Vikram Desai" "Rent a car" "2025-01-03T10:00:00Z" in
  let b := mkMessage "2" "u2" "Layla Hassan" "Book a table" "2025-01-02T09:30:00Z" in
  (1 <= 2)%Z /\
  (count_lines (create_context_parts [a; b; a] 2) <= 2)%Z.
Proof.
  intros a b. split; [lia|].
  apply (context_lines_within_positive_maximum [a; b; a] 2). lia.
Defined.
